(** * Monopoly landing-probability simulator: a shallow embedding

    The Python program estimates, by Monte Carlo simulation, how often a
    single token rests on each of the 40 board spaces.  This file embeds
    [board.py], [utils/cards.py], [utils/player.py] and
    [utils/simulation.py] as Rocq functions and proves the properties the
    specification states about them, followed by further properties read
    off the code: the board tables, a deck between two shuffles, the jail
    bookkeeping, where a turn can end, and the ranking and grouping of
    the probabilities.

    Python integers are [Z]; the [numpy] counters are 64-bit and their
    wrap-around is written out.  The global [random] module is an explicit
    generator state threaded through every call; mutable objects (player,
    decks) are records passed in and out.  Exceptions are a [result]. *)

From Stdlib Require Import ZArith List Bool Lia String DecimalString.
From Stdlib Require Import QArith Qround Qabs Qpower Lqa Sorted.
From stdpp Require Import base list strings.
Import ListNotations.

Local Open Scope Z_scope.

(** ** Exceptions *)

Inductive exn : Type :=
| IndexError
| RecursionError
| ValueError
| OverflowError.

Inductive result (A : Type) : Type :=
| Ok (a : A)
| Raise (e : exn).

Arguments Ok {A} a.
Arguments Raise {A} e.

(** [result] is a monad; stdpp's [x ← m; k] notation sequences calls and
    propagates the first exception. *)
#[global] Instance result_ret : MRet result := fun A a => Ok a.

#[global] Instance result_bind : MBind result := fun A B k m =>
  match m with
  | Ok a => k a
  | Raise e => Raise e
  end.

Definition succeeds {A : Type} (m : result A) : bool :=
  match m with Ok _ => true | Raise _ => false end.

(** ** Built-ins

    Converting an integer to decimal text, as [str(n)], [f"{n}"] and
    [f"{n:,}"] do, is refused by the interpreter when the integer has more
    digits than [sys.int_info.default_max_str_digits], which is 4300: it
    raises [ValueError].  The program never changes that limit. *)

Definition max_str_digits : Z := 4300.

(** [str(n)]: the decimal numeral of an integer. *)
Definition str (n : Z) : result string :=
  if Z.abs n <? 10 ^ max_str_digits
  then Ok (NilEmpty.string_of_int (Z.to_int n))
  else Raise ValueError.

(** [len(range(n))]: the length of a range has to fit a signed 64-bit
    integer, [sys.maxsize] being [2^63 - 1]; beyond it [len] raises
    [OverflowError].  A range over a count of zero or less is empty. *)
Definition range_len (n : Z) : result Z :=
  if Z.max 0 n <? 2 ^ 63 then Ok (Z.max 0 n) else Raise OverflowError.

(** ** board.py *)

Module Board.

Definition CHANCE_SPACES : list Z := [7; 22; 36].
Definition COMMUNITY_CHEST_SPACES : list Z := [2; 17; 33].
Definition RAILROAD_SPACES : list Z := [5; 15; 25; 35].
Definition UTILITY_SPACES : list Z := [12; 28].
Definition GO_TO_JAIL_SPACE : Z := 30.
Definition JAIL_SPACE : Z := 10.
Definition GO_SPACE : Z := 0.

(** [space in spaces] on a list of integers. *)
Definition contains (spaces : list Z) (space : Z) : bool :=
  existsb (Z.eqb space) spaces.

Definition is_chance (space : Z) : bool := contains CHANCE_SPACES space.

Definition is_community_chest (space : Z) : bool :=
  contains COMMUNITY_CHEST_SPACES space.

(** [BOARD_SPACES]: the items of the dict literal, in the order written.
    The keys are pairwise distinct, so the first item with a given key is
    the dict's entry for it. *)
Definition BOARD_SPACES : list (Z * string) :=
  [ (0, "GO");
    (1, "Mediterranean Avenue");
    (2, "Community Chest");
    (3, "Baltic Avenue");
    (4, "Income Tax");
    (5, "Reading Railroad");
    (6, "Oriental Avenue");
    (7, "Chance");
    (8, "Vermont Avenue");
    (9, "Connecticut Avenue");
    (10, "Jail (Just Visiting)");
    (11, "St. Charles Place");
    (12, "Electric Company");
    (13, "States Avenue");
    (14, "Virginia Avenue");
    (15, "Pennsylvania Railroad");
    (16, "St. James Place");
    (17, "Community Chest");
    (18, "Tennessee Avenue");
    (19, "New York Avenue");
    (20, "Free Parking");
    (21, "Kentucky Avenue");
    (22, "Chance");
    (23, "Indiana Avenue");
    (24, "Illinois Avenue");
    (25, "B&O Railroad");
    (26, "Atlantic Avenue");
    (27, "Ventnor Avenue");
    (28, "Water Works");
    (29, "Marvin Gardens");
    (30, "Go to Jail");
    (31, "Pacific Avenue");
    (32, "North Carolina Avenue");
    (33, "Community Chest");
    (34, "Pennsylvania Avenue");
    (35, "Short Line Railroad");
    (36, "Chance");
    (37, "Park Place");
    (38, "Luxury Tax");
    (39, "Boardwalk") ].

(** [COLOR_GROUPS]: the items of the dict literal, in the order written,
    which is the order [COLOR_GROUPS.items()] yields them in. *)
Definition COLOR_GROUPS : list (string * list Z) :=
  [ ("Brown", [1; 3]);
    ("Light Blue", [6; 8; 9]);
    ("Pink", [11; 13; 14]);
    ("Orange", [16; 18; 19]);
    ("Red", [21; 23; 24]);
    ("Yellow", [26; 27; 29]);
    ("Green", [31; 32; 34]);
    ("Dark Blue", [37; 39]);
    ("Railroads", [5; 15; 25; 35]);
    ("Utilities", [12; 28]) ].

(** [d.get(key, default)] on a dict with integer keys. *)
Definition dict_get {V : Type} (d : list (Z * V)) (key : Z) (default : V)
  : V :=
  match List.find (fun item => fst item =? key) d with
  | Some item => snd item
  | None => default
  end.

(** [get_space_name]: the default handed to [get] is an f-string, which
    is built before the lookup, whether the key is present or not. *)
Definition get_space_name (space_number : Z) : result string :=
  numeral ← str space_number;
  Ok (dict_get BOARD_SPACES space_number
        ("Unknown Space " ++ numeral)%string).

(** The loop of [get_color_group] over the items of a dict of groups. *)
Fixpoint first_group (groups : list (string * list Z)) (space : Z)
  : option string :=
  match groups with
  | [] => None
  | (group_name, spaces) :: rest =>
      if contains spaces space then Some group_name
      else first_group rest space
  end.

Definition get_color_group (space : Z) : option string :=
  first_group COLOR_GROUPS space.

End Board.

(** ** The [random] module

    The generator is a stream of raw draws and a cursor into it.
    [randbelow n] reduces the next raw draw modulo [n], so every sequence
    of outcomes the real generator can produce is produced by some stream;
    it is only called with [n > 0].  [randint a b] is
    [a + randbelow (b - a + 1)], and [shuffle] is the Fisher-Yates loop
    [for i in reversed(range(1, len(x))): j = randbelow(i + 1);
     x[i], x[j] = x[j], x[i]]. *)

Module Random.

Record State : Type := mkState { stream : nat -> nat; cursor : nat }.

Definition randbelow (n : nat) (g : State) : nat * State :=
  ((stream g (cursor g) mod n)%nat,
   {| stream := stream g; cursor := S (cursor g) |}).

Definition randint (a b : Z) (g : State) : Z * State :=
  let '(k, g') := randbelow (Z.to_nat (b - a + 1)) g in
  (a + Z.of_nat k, g').

(** [x[i], x[j] = x[j], x[i]]: the right-hand side is read first, then
    [x[i]] and [x[j]] are assigned in that order.  The shuffle loop only
    uses indices inside the list; outside, the list is left as it is. *)
Definition swap {A : Type} (i j : nat) (x : list A) : list A :=
  match x !! i, x !! j with
  | Some a, Some b => <[j := a]> (<[i := b]> x)
  | _, _ => x
  end.

Fixpoint shuffle_from {A : Type} (i : nat) (x : list A) (g : State)
  : list A * State :=
  match i with
  | O => (x, g)
  | S i' =>
      let '(j, g1) := randbelow (S i) g in
      shuffle_from i' (swap i j x) g1
  end.

Definition shuffle {A : Type} (x : list A) (g : State) : list A * State :=
  shuffle_from (length x - 1)%nat x g.

End Random.

(** ** utils/cards.py *)

Module Cards.
Import Board.

(** The class hierarchy under [Card], as a closed variant.  The base
    class carries its [affects_position] flag; each subclass fixes it
    to [True]. *)
Inductive Card : Type :=
| BaseCard (name : string) (affects_position : bool)
| AdvanceToCard (name : string) (target_space : Z)
| GoToJailCard
| GoBackCard
| NearestRailroadCard
| NearestUtilityCard.

Definition name (c : Card) : string :=
  match c with
  | BaseCard n _ => n
  | AdvanceToCard n _ => n
  | GoToJailCard => "Go to Jail"
  | GoBackCard => "Go Back 3 Spaces"
  | NearestRailroadCard => "Advance to Nearest Railroad"
  | NearestUtilityCard => "Advance to Nearest Utility"
  end.

Definition affects_position (c : Card) : bool :=
  match c with
  | BaseCard _ b => b
  | _ => true
  end.

(** [for s in spaces: if s > current_position: return s]. *)
Fixpoint next_clockwise (spaces : list Z) (current_position : Z)
  : option Z :=
  match spaces with
  | [] => None
  | s :: rest =>
      if s >? current_position then Some s
      else next_clockwise rest current_position
  end.

(** The loop, then [return spaces[0]] when it falls through. *)
Definition nearest (spaces : list Z) (current_position : Z) : Z :=
  match next_clockwise spaces current_position with
  | Some s => s
  | None => nth 0 spaces 0
  end.

(** [card.apply(current_position)], returning
    [(new_position, in_jail_status)]. *)
Definition apply (c : Card) (current_position : Z) : Z * bool :=
  match c with
  | BaseCard _ _ => (current_position, false)
  | AdvanceToCard _ target_space => (target_space, false)
  | GoToJailCard => (JAIL_SPACE, true)
  | GoBackCard => ((current_position - 3) mod 40, false)
  | NearestRailroadCard => (nearest RAILROAD_SPACES current_position, false)
  | NearestUtilityCard => (nearest UTILITY_SPACES current_position, false)
  end.

Record Deck : Type := mkDeck { all_cards : list Card; cards : list Card }.

(** [Deck.shuffle]: copy [all_cards] and shuffle the copy. *)
Definition shuffle (d : Deck) (g : Random.State) : Deck * Random.State :=
  let '(cs, g') := Random.shuffle (all_cards d) g in
  ({| all_cards := all_cards d; cards := cs |}, g').

(** [Deck.__init__]. *)
Definition new_deck (cs : list Card) (g : Random.State)
  : Deck * Random.State :=
  shuffle {| all_cards := cs; cards := [] |} g.

(** [list.pop()]: remove and return the last element; [IndexError] on
    an empty list. *)
Definition pop {A : Type} (l : list A) : result (A * list A) :=
  match last l with
  | Some c => Ok (c, removelast l)
  | None => Raise IndexError
  end.

(** [Deck.draw]. *)
Definition draw (d : Deck) (g : Random.State)
  : result (Card * Deck * Random.State) :=
  let '(d1, g1) :=
    match cards d with
    | [] => shuffle d g
    | _ :: _ => (d, g)
    end in
  '(c, rest) ← pop (cards d1);
  Ok (c, {| all_cards := all_cards d1; cards := rest |}, g1).

Definition no_movement (i : nat) : Card :=
  BaseCard ("No Movement " ++ NilEmpty.string_of_uint (Nat.to_uint i)) false.

Definition chance_cards : list Card :=
  [ AdvanceToCard "Advance to GO" GO_SPACE;
    AdvanceToCard "Advance to Illinois Avenue" 24;
    AdvanceToCard "Advance to St. Charles Place" 11;
    NearestRailroadCard;
    NearestRailroadCard;
    NearestUtilityCard;
    GoBackCard;
    AdvanceToCard "Advance to Boardwalk" 39;
    GoToJailCard ]
  ++ map no_movement (seq 0 7).

Definition community_chest_cards : list Card :=
  [ AdvanceToCard "Advance to GO" GO_SPACE;
    GoToJailCard ]
  ++ map no_movement (seq 0 14).

Definition ChanceDeck (g : Random.State) : Deck * Random.State :=
  new_deck chance_cards g.

Definition CommunityChestDeck (g : Random.State) : Deck * Random.State :=
  new_deck community_chest_cards g.

Definition create_decks (g : Random.State) : Deck * Deck * Random.State :=
  let '(chance, g1) := ChanceDeck g in
  let '(chest, g2) := CommunityChestDeck g1 in
  (chance, chest, g2).

End Cards.

(** ** utils/player.py *)

Module Player.
Import Board Cards.

Record Player : Type := mkPlayer {
  position : Z;
  in_jail : bool;
  jail_turns : Z;
  consecutive_doubles : Z;
  jail_strategy : string
}.

(** [Player.__init__]. *)
Definition __init__ (strategy : string) : Player :=
  {| position := GO_SPACE;
     in_jail := false;
     jail_turns := 0;
     consecutive_doubles := 0;
     jail_strategy := strategy |}.

(** [roll_dice], returning [(die1, die2, total, is_doubles)]. *)
Definition roll_dice (g : Random.State) : Z * Z * Z * bool * Random.State :=
  let '(die1, g1) := Random.randint 1 6 g in
  let '(die2, g2) := Random.randint 1 6 g1 in
  (die1, die2, die1 + die2, die1 =? die2, g2).

Definition set_position (space : Z) (p : Player) : Player :=
  {| position := space;
     in_jail := in_jail p;
     jail_turns := jail_turns p;
     consecutive_doubles := consecutive_doubles p;
     jail_strategy := jail_strategy p |}.

Definition set_consecutive_doubles (n : Z) (p : Player) : Player :=
  {| position := position p;
     in_jail := in_jail p;
     jail_turns := jail_turns p;
     consecutive_doubles := n;
     jail_strategy := jail_strategy p |}.

Definition move_forward (spaces : Z) (p : Player) : Player :=
  set_position ((position p + spaces) mod 40) p.

Definition move_to (space : Z) (p : Player) : Player :=
  set_position space p.

Definition send_to_jail (p : Player) : Player :=
  {| position := JAIL_SPACE;
     in_jail := true;
     jail_turns := 0;
     consecutive_doubles := 0;
     jail_strategy := jail_strategy p |}.

(** The three assignments [in_jail = True; jail_turns = 0;
    consecutive_doubles = 0] of the card branches of
    [_process_landing]. *)
Definition jailed_by_card (p : Player) : Player :=
  {| position := position p;
     in_jail := true;
     jail_turns := 0;
     consecutive_doubles := 0;
     jail_strategy := jail_strategy p |}.

(** [in_jail = False; jail_turns = 0]. *)
Definition leave_jail (p : Player) : Player :=
  {| position := position p;
     in_jail := false;
     jail_turns := 0;
     consecutive_doubles := consecutive_doubles p;
     jail_strategy := jail_strategy p |}.

Definition set_jail_turns (n : Z) (p : Player) : Player :=
  {| position := position p;
     in_jail := in_jail p;
     jail_turns := n;
     consecutive_doubles := consecutive_doubles p;
     jail_strategy := jail_strategy p |}.

(** [handle_jail_turn]: [Some total] when the player leaves jail,
    [None] when it stays. *)
Definition handle_jail_turn (p : Player) (g : Random.State)
  : option Z * Player * Random.State :=
  if String.eqb (jail_strategy p) "B" then
    let p1 := leave_jail p in
    let '(_, _, total, _, g1) := roll_dice g in
    (Some total, p1, g1)
  else
    let '(_, _, total, is_doubles, g1) := roll_dice g in
    if is_doubles then (Some total, leave_jail p, g1)
    else
      let p1 := set_jail_turns (jail_turns p + 1) p in
      if jail_turns p1 >=? 3 then (Some total, leave_jail p1, g1)
      else (None, p1, g1).

(** Everything a turn reads and writes: the player, the two decks it is
    handed, and the state of the global generator. *)
Record World : Type := mkWorld {
  self : Player;
  chance_deck : Deck;
  community_chest_deck : Deck;
  rng : Random.State
}.

Definition with_self (p : Player) (w : World) : World :=
  {| self := p;
     chance_deck := chance_deck w;
     community_chest_deck := community_chest_deck w;
     rng := rng w |}.

(** The body shared by the two card branches of [_process_landing],
    after the draw: [recur] is the recursive call and [otherwise] what
    follows the branch when the card leaves the position alone. *)
Definition resolve_card (recur : World -> result (Z * World))
    (card : Card) (w : World) (otherwise : result (Z * World))
  : result (Z * World) :=
  if affects_position card then
    let '(new_position, go_to_jail) := apply card (position (self w)) in
    let w1 := with_self (set_position new_position (self w)) w in
    if go_to_jail then
      let w2 := with_self (jailed_by_card (self w1)) w1 in
      Ok (position (self w2), w2)
    else recur w1
  else otherwise.

(** The Community Chest branch and the final [return self.position]. *)
Definition community_chest_branch (recur : World -> result (Z * World))
    (w : World) : result (Z * World) :=
  if is_community_chest (position (self w)) then
    '(card, deck, g) ← draw (community_chest_deck w) (rng w);
    let w1 := {| self := self w;
                 chance_deck := chance_deck w;
                 community_chest_deck := deck;
                 rng := g |} in
    resolve_card recur card w1 (Ok (position (self w1), w1))
  else Ok (position (self w), w).

(** [_process_landing].  [depth] is the number of nested calls the
    interpreter still allows: Python raises [RecursionError] when the
    recursion limit is exceeded. *)
Fixpoint _process_landing (depth : nat) (w : World) : result (Z * World) :=
  match depth with
  | O => Raise RecursionError
  | S d =>
      if position (self w) =? GO_TO_JAIL_SPACE then
        let w1 := with_self (send_to_jail (self w)) w in
        Ok (position (self w1), w1)
      else if is_chance (position (self w)) then
        '(card, deck, g) ← draw (chance_deck w) (rng w);
        let w1 := {| self := self w;
                     chance_deck := deck;
                     community_chest_deck := community_chest_deck w;
                     rng := g |} in
        resolve_card (_process_landing d) card w1
          (community_chest_branch (_process_landing d) w1)
      else community_chest_branch (_process_landing d) w
  end.

(** [take_turn]. *)
Definition take_turn (depth : nat) (w : World) : result (Z * World) :=
  if in_jail (self w) then
    let '(move_amount, p1, g1) := handle_jail_turn (self w) (rng w) in
    let w1 := {| self := p1;
                 chance_deck := chance_deck w;
                 community_chest_deck := community_chest_deck w;
                 rng := g1 |} in
    match move_amount with
    | Some m => _process_landing depth (with_self (move_forward m p1) w1)
    | None => Ok (position p1, w1)
    end
  else
    let '(_, _, total, is_doubles, g1) := roll_dice (rng w) in
    let w1 := {| self := self w;
                 chance_deck := chance_deck w;
                 community_chest_deck := community_chest_deck w;
                 rng := g1 |} in
    let p1 :=
      if is_doubles
      then set_consecutive_doubles (consecutive_doubles (self w1) + 1) (self w1)
      else set_consecutive_doubles 0 (self w1) in
    if is_doubles && (consecutive_doubles p1 >=? 3) then
      let p2 := send_to_jail p1 in
      Ok (position p2, with_self p2 w1)
    else
      _process_landing depth (with_self (move_forward total p1) w1).

End Player.

(** ** [float64] values

    [numpy] true division produces IEEE-754 binary64 values.  A finite
    value is the rational it denotes; [round] is rounding to nearest, ties
    to even, at 53 significant bits.  [round] itself knows no exponent
    range.  Division needs none: every quotient of two non-zero [int64]
    values lies between [2^-64] and [2^64], far inside the range.
    Addition overflows to an infinity when the rounded sum is beyond the
    largest finite value; it cannot underflow, the sum of two [float64]
    values below [2^-1022] being exact. *)

Module Float64.
Local Open Scope Q_scope.

Inductive float64 : Type :=
| Finite (q : Q)
| Infinity (negative : bool)
| NaN.

Definition pow2 (e : Z) : Q := Qpower 2 e.

(** [floor (log2 q)] for [q > 0]. *)
Definition ilog2 (q : Q) : Z :=
  let k := (Z.log2 (Qnum q) - Z.log2 (Zpos (Qden q)))%Z in
  if Qle_bool (pow2 k) q then k else (k - 1)%Z.

Definition round_half_even (q : Q) : Z :=
  let f := Qfloor q in
  match Qcompare (q - inject_Z f) (1 # 2) with
  | Lt => f
  | Gt => (f + 1)%Z
  | Eq => if Z.even f then f else (f + 1)%Z
  end.

(** Rounding of a positive rational: scale the significand into
    [[2^52, 2^53)], round it to an integer, scale back. *)
Definition round_pos (q : Q) : Q :=
  let ulp := pow2 (ilog2 q - 52) in
  inject_Z (round_half_even (q / ulp)) * ulp.

Definition round (q : Q) : Q :=
  match Qnum q with
  | Z0 => 0
  | Zpos _ => round_pos q
  | Zneg _ => - round_pos (- q)
  end.

(** Conversion of an [int64] to [float64]. *)
Definition of_int (z : Z) : Q := round (inject_Z z).

(** [numpy.true_divide] on two [int64] values: both are converted, the
    quotient is rounded; division by zero gives [nan] or an infinity
    (with a warning, not an exception). *)
Definition true_divide (a b : Z) : float64 :=
  let x := of_int a in
  let y := of_int b in
  if Qeq_bool y 0 then
    if Qeq_bool x 0 then NaN else Infinity (negb (Qle_bool 0 x))
  else Finite (round (x / y)).

(** [a < b] on [float64] values: false as soon as one side is [nan]. *)
Definition less (a b : float64) : bool :=
  match a, b with
  | NaN, _ => false
  | _, NaN => false
  | Finite x, Finite y => negb (Qle_bool y x)
  | Finite _, Infinity negative => negb negative
  | Infinity negative, Finite _ => negative
  | Infinity negative, Infinity negative' => negative && negb negative'
  end.

(** The largest finite [float64], [(2 - 2^-52) * 2^1023]. *)
Definition max_finite : Q := (2 - pow2 (-52)) * pow2 1023.

(** A rounded result that exceeds the largest finite value is replaced by
    the infinity of its sign. *)
Definition overflow (r : Q) : float64 :=
  if Qle_bool (Qabs r) max_finite then Finite r
  else Infinity (negb (Qle_bool 0 r)).

(** [a + b] on [float64] values: the exact sum, rounded, or an infinity
    when that overflows; [nan] when one side is [nan] or the two sides are
    opposite infinities. *)
Definition add (a b : float64) : float64 :=
  match a, b with
  | NaN, _ => NaN
  | _, NaN => NaN
  | Finite x, Finite y => overflow (round (x + y))
  | Finite _, Infinity negative => Infinity negative
  | Infinity negative, Finite _ => Infinity negative
  | Infinity negative, Infinity negative' =>
      if Bool.eqb negative negative' then Infinity negative else NaN
  end.

End Float64.

(** ** utils/simulation.py *)

Module Simulation.
Import Board Cards Player.

(** [numpy.int64]: arithmetic wraps around modulo [2^64]. *)
Definition wrap_int64 (z : Z) : Z := (z + 2 ^ 63) mod 2 ^ 64 - 2 ^ 63.

(** [np.zeros(n, dtype=np.int64)]. *)
Definition np_zeros (n : nat) : list Z := repeat 0 n.

(** Index normalisation of [a[i]]: negative indices count from the end,
    anything outside [-len, len) raises [IndexError]. *)
Definition np_index (len : Z) (i : Z) : result nat :=
  if (0 <=? i) && (i <? len) then Ok (Z.to_nat i)
  else if (- len <=? i) && (i <? 0) then Ok (Z.to_nat (i + len))
  else Raise IndexError.

(** [a[i] += 1] on an [int64] array. *)
Definition np_increment (a : list Z) (i : Z) : result (list Z) :=
  k ← np_index (Z.of_nat (length a)) i;
  match a !! k with
  | Some c => Ok (<[k := wrap_int64 (c + 1)]> a)
  | None => Raise IndexError
  end.

(** [np.sum] of an [int64] array: the accumulator is [int64] too. *)
Definition np_sum (a : list Z) : Z :=
  fold_left (fun acc c => wrap_int64 (acc + c)) a 0.

Record MonopolySimulation : Type := mkSimulation {
  num_iterations : Z;
  turns_per_iteration : Z;
  landing_counts : option (list Z)
}.

(** [MonopolySimulation.__init__]. *)
Definition __init__ (num_iterations turns_per_iteration : Z)
  : MonopolySimulation :=
  {| num_iterations := num_iterations;
     turns_per_iteration := turns_per_iteration;
     landing_counts := None |}.

(** The inner loop [for turn in range(turns_per_iteration)]. *)
Fixpoint run_turns (depth : nat) (turns : nat) (w : World)
    (counts : list Z) : result (World * list Z) :=
  match turns with
  | O => Ok (w, counts)
  | S t =>
      '(final_position, w1) ← take_turn depth w;
      counts1 ← np_increment counts final_position;
      run_turns depth t w1 counts1
  end.

(** The outer loop [for iteration in range(num_iterations)]; [range n]
    is empty for [n <= 0]. *)
Fixpoint run_iterations (depth : nat) (iterations : nat) (turns : Z)
    (strategy : string) (g : Random.State) (counts : list Z)
  : result (list Z * Random.State) :=
  match iterations with
  | O => Ok (counts, g)
  | S n =>
      let player := Player.__init__ strategy in
      let '(chance, chest, g1) := create_decks g in
      let w := {| self := player;
                  chance_deck := chance;
                  community_chest_deck := chest;
                  rng := g1 |} in
      '(w1, counts1) ← run_turns depth (Z.to_nat turns) w counts;
      run_iterations depth n turns strategy (rng w1) counts1
  end.

(** [run_simulation].  Of the two [print] calls and the progress bar
    only what can fail is kept: the second [print] formats both counts
    with [f"{n:,}"], which converts them to decimal text, and
    [tqdm(range(num_iterations))] asks for the length of the range.  The
    text printed is not modelled. *)
Definition run_simulation (depth : nat) (sim : MonopolySimulation)
    (strategy : string) (g : Random.State)
  : result (list Z * MonopolySimulation * Random.State) :=
  let counts0 := np_zeros 40 in
  _ ← str (num_iterations sim);
  _ ← str (turns_per_iteration sim);
  _ ← range_len (num_iterations sim);
  '(counts, g1) ← run_iterations depth (Z.to_nat (num_iterations sim))
                    (turns_per_iteration sim) strategy g counts0;
  Ok (counts,
      {| num_iterations := num_iterations sim;
         turns_per_iteration := turns_per_iteration sim;
         landing_counts := Some counts |},
      g1).

(** [calculate_probabilities]. *)
Definition calculate_probabilities (landing_counts : list Z)
  : list Float64.float64 :=
  let total_landings := np_sum landing_counts in
  map (fun c => Float64.true_divide c total_landings) landing_counts.

(** [range(n)]. *)
Definition range (n : nat) : list Z := map Z.of_nat (seq 0 n).

(** [a[i]] on an array, with the index normalisation of [np_index]. *)
Definition np_getitem {A : Type} (a : list A) (i : Z) : result A :=
  k ← np_index (Z.of_nat (length a)) i;
  match a !! k with
  | Some x => Ok x
  | None => Raise IndexError
  end.

(** [list.sort(key=..., reverse=True)].  The sort is stable, also when
    reversed: items come out with their keys in descending order, items
    with equal keys in the order they had.  Where [<] orders the keys
    totally, that is, when none is [nan], this fixes the result, and the
    insertion sort below computes it: taking the items from the last to
    the first, each is put in front of the first item of the sorted rest
    whose key is not greater. *)
Fixpoint insert_reverse {A : Type} (key : A -> Float64.float64) (x : A)
    (sorted : list A) : list A :=
  match sorted with
  | [] => [x]
  | y :: rest =>
      if Float64.less (key x) (key y) then y :: insert_reverse key x rest
      else x :: y :: rest
  end.

Definition sort_reverse {A : Type} (key : A -> Float64.float64)
    (l : list A) : list A :=
  fold_right (insert_reverse key) [] l.

(** [get_ranked_spaces]. *)
Definition get_ranked_spaces (probabilities : list Float64.float64)
  : result (list (Z * Float64.float64)) :=
  ranked ← mapM (fun i => p ← np_getitem probabilities i; Ok (i, p))
             (range 40);
  Ok (sort_reverse snd ranked).

(** The builtin [sum] over [float64] items: it starts from the integer 0
    and adds the items from left to right, every addition rounding. *)
Definition sum (items : list Float64.float64) : Float64.float64 :=
  fold_left Float64.add items (Float64.Finite (Float64.of_int 0)).

(** [get_color_group_probabilities]: the dict returned, as its items in
    insertion order; the group names are pairwise distinct, so no
    assignment overwrites an earlier one. *)
Definition get_color_group_probabilities
    (probabilities : list Float64.float64)
  : result (list (string * Float64.float64)) :=
  mapM (fun '(group_name, spaces) =>
          items ← mapM (np_getitem probabilities) spaces;
          Ok (group_name, sum items))
       COLOR_GROUPS.


End Simulation.

(** * Specification vocabulary *)

Import Board Cards Player Simulation.

(** The kinds of card effect the specification names. *)
Definition is_advance_to (c : Card) : bool :=
  match c with AdvanceToCard _ _ => true | _ => false end.

Definition is_advance_to_go (c : Card) : bool :=
  match c with AdvanceToCard _ t => t =? GO_SPACE | _ => false end.

Definition is_nearest_railroad (c : Card) : bool :=
  match c with NearestRailroadCard => true | _ => false end.

Definition is_nearest_utility (c : Card) : bool :=
  match c with NearestUtilityCard => true | _ => false end.

Definition is_go_back (c : Card) : bool :=
  match c with GoBackCard => true | _ => false end.

Definition is_send_to_jail (c : Card) : bool :=
  match c with GoToJailCard => true | _ => false end.

Definition is_no_op (c : Card) : bool := negb (affects_position c).

Definition count (p : Card -> bool) (l : list Card) : nat :=
  length (List.filter p l).

(** A space on which landing draws a card. *)
Definition is_card_space (space : Z) : bool :=
  is_chance space || is_community_chest space.

Definition on_board (space : Z) : Prop := 0 <= space <= 39.

(** Deck states reachable from a freshly built deck over the cards [cs]:
    the deck as [Deck.__init__] leaves it, and whatever [draw] leaves. *)
Inductive reachable_deck (cs : list Card) : Deck -> Prop :=
| reachable_new (g : Random.State) :
    reachable_deck cs (fst (new_deck cs g))
| reachable_draw (d d' : Deck) (g g' : Random.State) (c : Card) :
    reachable_deck cs d ->
    draw d g = Ok (c, d', g') ->
    reachable_deck cs d'.

(** The world at the start of a trajectory, as one iteration of
    [run_simulation] builds it. *)
Definition start_world (strategy : string) (g : Random.State) : World :=
  let '(chance, chest, g1) := create_decks g in
  {| self := Player.__init__ strategy;
     chance_deck := chance;
     community_chest_deck := chest;
     rng := g1 |}.

(** Worlds a trajectory can be in between two turns. *)
Inductive reachable_world (depth : nat) (strategy : string) : World -> Prop :=
| reachable_start (g : Random.State) :
    reachable_world depth strategy (start_world strategy g)
| reachable_turn (w w' : World) (final_position : Z) :
    reachable_world depth strategy w ->
    take_turn depth w = Ok (final_position, w') ->
    reachable_world depth strategy w'.

(** The jail step of the next turn lets the player out. *)
Definition leaves_jail (w : World) : bool :=
  match handle_jail_turn (self w) (rng w) with
  | (Some _, _, _) => true
  | (None, _, _) => false
  end.

(** The dice the next [roll_dice] call will show. *)
Definition next_roll (g : Random.State) : Z * Z * Z * bool :=
  let '(die1, die2, total, is_doubles, _) := roll_dice g in
  (die1, die2, total, is_doubles).

Definition with_strategy (strategy : string) (p : Player) : Player :=
  {| position := position p;
     in_jail := in_jail p;
     jail_turns := jail_turns p;
     consecutive_doubles := consecutive_doubles p;
     jail_strategy := strategy |}.

Definition world_with_strategy (strategy : string) (w : World) : World :=
  with_self (with_strategy strategy (self w)) w.

(** The result of a turn, with the policy of the player rewritten. *)
Definition relabel_result (strategy : string) (r : result (Z * World))
  : result (Z * World) :=
  match r with
  | Ok (pos, w) => Ok (pos, world_with_strategy strategy w)
  | Raise e => Raise e
  end.

Definition int64 (z : Z) : Prop := - 2 ^ 63 <= z < 2 ^ 63.

(** The exact integer sum of a list of counters. *)
Definition counts_total (a : list Z) : Z := fold_right Z.add 0 a.

(** The exact rational sum of a list of rationals. *)
Definition Qtotal (a : list Q) : Q := fold_right Qplus 0%Q a.

(** The counters of a run: 40 of them, each an [int64]; and, as long as
    the number of recorded turns [seen] stays below [2^63], each is
    non-negative and they add up to [seen]. *)
Definition counters (counts : list Z) (seen : Z) : Prop :=
  length counts = 40%nat /\
  Forall int64 counts /\
  (seen < 2 ^ 63 -> Forall (Z.le 0) counts /\ counts_total counts = seen).

(** Half the gap between 1 and the next [float64]: the relative error of
    one rounding to nearest. *)
Definition unit_roundoff : Q := 1 # (2 ^ 53).


(** A deck over the cards [cs]: it refills from [cs] and holds only cards
    of [cs]. *)
Definition deck_over (cs : list Card) (d : Deck) : Prop :=
  all_cards d = cs /\ forall c, c ∈ cards d -> c ∈ cs.

(** The number of nested [_process_landing] calls a landing on [space]
    can need: Chance at 36 can lead to Community Chest at 33, any other
    card space leads to a plain space, a plain space leads nowhere. *)
Definition rank (space : Z) : nat :=
  if space =? 36 then 3%nat
  else if is_card_space space then 2%nat
  else 1%nat.

(** Where the card [c] drawn on [p] sends the player: onto the board, and
    either to jail on the Jail space or to a space of smaller rank. *)
Definition card_target_ok (p : Z) (c : Card) : bool :=
  negb (affects_position c) ||
  (let '(q, j) := apply c p in
   (0 <=? q) && (q <=? 39) &&
   (if j then q =? JAIL_SPACE else (rank q <? rank p)%nat)).

(** What landing resolution relies on. *)
Definition landing_ok (w : World) : Prop :=
  on_board (position (self w)) /\
  deck_over chance_cards (chance_deck w) /\
  deck_over community_chest_cards (community_chest_deck w).

(** The invariant of a trajectory between two turns. *)
Definition world_ok (w : World) : Prop :=
  landing_ok w /\
  0 <= jail_turns (self w) <= 2 /\
  0 <= consecutive_doubles (self w) <= 2 /\
  (in_jail (self w) = true -> position (self w) = JAIL_SPACE).

(** What landing resolution does to the player: it moves it, or it jails
    it on the Jail space. *)
Definition landed (p p' : Player) : Prop :=
  p' = set_position (position p') p \/ p' = send_to_jail p.

(** The postcondition of landing resolution started in [w]. *)
Definition lands (w : World) (r : result (Z * World)) : Prop :=
  exists w', r = Ok (position (self w'), w') /\
             landing_ok w' /\ landed (self w) (self w').

(** The longest chain of landings: on Chance at 36 with Go Back 3 on top
    of the Chance deck and Advance to Go on top of the Community Chest
    deck. *)
Definition chain_world : World :=
  {| self := set_position 36 (Player.__init__ "A");
     chance_deck := {| all_cards := chance_cards; cards := [GoBackCard] |};
     community_chest_deck :=
       {| all_cards := community_chest_cards;
          cards := [AdvanceToCard "Advance to GO" GO_SPACE] |};
     rng := Random.mkState (fun _ => 0%nat) 0 |}.

(** A world on a given space with freshly built decks. *)
Definition world_at (space : Z) (g : Random.State) : World :=
  with_self (set_position space (Player.__init__ "A")) (start_world "A" g).

(** [n] turns in a row, as the inner loop of [run_simulation] plays them,
    keeping only the world. *)
Fixpoint play (depth : nat) (n : nat) (w : World) : result World :=
  match n with
  | O => Ok w
  | S k => '(_, w1) ← take_turn depth w; play depth k w1
  end.

(** The world of a trajectory after [n] turns. *)
Definition world_after (depth : nat) (strategy : string) (g : Random.State)
    (n : nat) : World :=
  match play depth n (start_world strategy g) with
  | Ok w => w
  | Raise _ => start_world strategy g
  end.

(** A player in jail under policy B whose next roll is 3 and 4, with the
    send-to-jail card on top of the Community Chest deck. *)
Definition rejail_world : World :=
  {| self := {| position := JAIL_SPACE;
                in_jail := true;
                jail_turns := 0;
                consecutive_doubles := 0;
                jail_strategy := "B" |};
     chance_deck := {| all_cards := chance_cards; cards := chance_cards |};
     community_chest_deck :=
       {| all_cards := community_chest_cards; cards := [GoToJailCard] |};
     rng := Random.mkState (fun n => (n + 2)%nat) 0 |}.

(** [n] draws in a row from a deck, with the cards in the order drawn. *)
Fixpoint draw_many (n : nat) (d : Deck) (g : Random.State)
  : result (list Card * Deck * Random.State) :=
  match n with
  | O => Ok ([], d, g)
  | S k =>
      '(c, d1, g1) ← draw d g;
      '(cs, d2, g2) ← draw_many k d1 g1;
      Ok (c :: cs, d2, g2)
  end.

(** The jail bookkeeping of a player between two turns: in jail it stands
    on the Jail space with no run of doubles and fewer than three turns
    served; out of jail it has no turn served. *)
Definition jail_ok (p : Player) : Prop :=
  0 <= jail_turns p <= 2 /\
  0 <= consecutive_doubles p <= 2 /\
  (in_jail p = true -> position p = JAIL_SPACE /\ consecutive_doubles p = 0) /\
  (in_jail p = false -> jail_turns p = 0).

Definition is_nan (x : Float64.float64) : bool :=
  match x with Float64.NaN => true | _ => false end.

(** The order [get_ranked_spaces] leaves two items in, the first before
    the second: the second probability is not greater, and on equal
    probabilities the first space number is the smaller. *)
Definition ranked_before (x y : Z * Float64.float64) : Prop :=
  Float64.less (snd x) (snd y) = false /\
  (Float64.less (snd y) (snd x) = false -> fst x < fst y).

(** An integer that can be converted to decimal text: one of at most
    4300 digits. *)
Definition printable (n : Z) : Prop := Z.abs n < 10 ^ max_str_digits.

(** [get_space_name] returns the given name. *)
Definition is_named (n : Z) (name : string) : bool :=
  match get_space_name n with
  | Ok s => String.eqb s name
  | Raise _ => false
  end.

(** The special spaces and their names, as one check per board index. *)
Definition names_match (n : Z) : bool :=
  Bool.eqb (is_chance n) (is_named n "Chance") &&
  Bool.eqb (is_community_chest n) (is_named n "Community Chest") &&
  Bool.eqb (n =? GO_TO_JAIL_SPACE) (is_named n "Go to Jail") &&
  Bool.eqb (n =? JAIL_SPACE) (is_named n "Jail (Just Visiting)") &&
  Bool.eqb (n =? GO_SPACE) (is_named n "GO").

(** The probabilities of counters in which space [i] was counted
    [(7 * i) mod 40] times, 780 landings in all. *)
Definition example_probabilities : list Float64.float64 :=
  calculate_probabilities (map (fun i => (7 * i) mod 40) (range 40)).



(** A card of the base class created with [affects_position=True]: its
    [apply] returns the position it is given. *)
Definition stays_put (c : Card) : bool :=
  match c with BaseCard _ true => true | _ => false end.

(** A player on Chance at 7 with a Chance deck of one such card. *)
Definition stuck_world : World :=
  {| self := set_position 7 (Player.__init__ "A");
     chance_deck := {| all_cards := [BaseCard "Stay" true]; cards := [] |};
     community_chest_deck :=
       {| all_cards := community_chest_cards; cards := [] |};
     rng := Random.mkState (fun _ => 0%nat) 0 |}.

(** A generator whose dice always show a pair of ones. *)
Definition doubles_generator : Random.State :=
  Random.mkState (fun _ => 0%nat) 0.

(** A fixed generator for the worked examples. *)
Definition example_generator : Random.State :=
  Random.mkState (fun n => (7 * n + 3)%nat) 0.

(** * The generator and the shuffle *)

Section Shuffle.
Context {A : Type}.
Implicit Types x : list A.

Lemma swap_Permutation (i j : nat) x : Random.swap i j x ≡ₚ x.
Proof.
  unfold Random.swap.
  destruct (x !! i) as [a|] eqn:Hi; [|done].
  destruct (x !! j) as [b|] eqn:Hj; [|done].
  by apply Permutation_insert_swap.
Qed.

Lemma shuffle_from_Permutation (i : nat) x (g : Random.State) :
  fst (Random.shuffle_from i x g) ≡ₚ x.
Proof.
  revert x g. induction i as [|i IH]; intros x g; [done|].
  cbn [Random.shuffle_from].
  destruct (Random.randbelow (S (S i)) g) as [j g1].
  rewrite IH. apply swap_Permutation.
Qed.

Lemma shuffle_Permutation x (g : Random.State) :
  fst (Random.shuffle x g) ≡ₚ x.
Proof. apply shuffle_from_Permutation. Qed.

Lemma shuffle_length x (g : Random.State) :
  length (fst (Random.shuffle x g)) = length x.
Proof. by rewrite shuffle_Permutation. Qed.

End Shuffle.

(** * Card resolution *)

(** C3.  From every board position, the nearest-railroad card sends the
    player to the first railroad of [5, 15, 25, 35] strictly beyond the
    current position, or to 5 when there is none, and never to jail; the
    nearest-utility card does the same over [12, 28], falling back to 12.
    From 5 the railroad card gives 15 and from 35 it gives 5; from 12 the
    utility card gives 28 and from 28 it gives 12. *)
Theorem nearest_card_resolution (p : Z) :
  on_board p ->
  apply NearestRailroadCard p =
    (match List.find (fun s => p <? s) RAILROAD_SPACES with
     | Some s => s
     | None => 5
     end, false) /\
  apply NearestUtilityCard p =
    (match List.find (fun s => p <? s) UTILITY_SPACES with
     | Some s => s
     | None => 12
     end, false) /\
  apply NearestRailroadCard 5 = (15, false) /\
  apply NearestRailroadCard 35 = (5, false) /\
  apply NearestUtilityCard 12 = (28, false) /\
  apply NearestUtilityCard 28 = (12, false).
Proof.
  intros _. repeat split; try reflexivity.
  - cbn. unfold nearest. cbn. rewrite !Z.gtb_ltb.
    repeat (destruct (p <? _); [reflexivity|]). reflexivity.
  - cbn. unfold nearest. cbn. rewrite !Z.gtb_ltb.
    repeat (destruct (p <? _); [reflexivity|]). reflexivity.
Qed.

Lemma nearest_card_resolution_witness :
  on_board 35 /\
  apply NearestRailroadCard 35 = (5, false) /\
  apply NearestUtilityCard 35 = (12, false).
Proof.
  split; [unfold on_board; lia|].
  destruct (nearest_card_resolution 35) as (Hr & Hu & _);
    [unfold on_board; lia|].
  split; [exact Hr | exact Hu].
Defined.

(** The specification's examples for Go Back 3. *)
Example go_back_examples :
  apply GoBackCard 7 = (4, false) /\ apply GoBackCard 1 = (38, false).
Proof. split; reflexivity. Qed.

(** * The decks *)

Lemma count_Permutation (p : Card -> bool) (l l' : list Card) :
  l ≡ₚ l' -> count p l = count p l'.
Proof.
  unfold count. induction 1 as [|c l l' _ IH|c c' l|l l' l'' _ IH1 _ IH2];
    cbn; [done| | |congruence].
  - destruct (p c); cbn; congruence.
  - destruct (p c), (p c'); reflexivity.
Qed.

Lemma new_deck_all_cards (cs : list Card) (g : Random.State) :
  all_cards (fst (new_deck cs g)) = cs.
Proof.
  unfold new_deck, shuffle. cbn [all_cards].
  by destruct (Random.shuffle cs g).
Qed.

Lemma new_deck_cards (cs : list Card) (g : Random.State) :
  cards (fst (new_deck cs g)) ≡ₚ cs.
Proof.
  unfold new_deck, shuffle. cbn [all_cards].
  pose proof (shuffle_Permutation cs g) as H.
  by destruct (Random.shuffle cs g).
Qed.

(** C2, as amended.  Whatever the shuffle, a freshly built Chance deck
    holds 16 cards: 4 advance-to cards (to Go, Illinois Avenue, St. Charles
    Place and Boardwalk), one of them to Go, 2 nearest-railroad, 1
    nearest-utility, 1 go-back-3, 1 send-to-jail and 7 cards that leave
    the position alone; a freshly built Community Chest deck holds 16
    cards: 1 advance-to card, which is to Go, 1 send-to-jail and 14 cards
    that leave the position alone. *)
Theorem fresh_deck_composition (g : Random.State) :
  let chance := cards (fst (ChanceDeck g)) in
  let chest := cards (fst (CommunityChestDeck g)) in
  (length chance = 16%nat /\
   count is_advance_to chance = 4%nat /\
   count is_advance_to_go chance = 1%nat /\
   count is_nearest_railroad chance = 2%nat /\
   count is_nearest_utility chance = 1%nat /\
   count is_go_back chance = 1%nat /\
   count is_send_to_jail chance = 1%nat /\
   count is_no_op chance = 7%nat) /\
  (length chest = 16%nat /\
   count is_advance_to chest = 1%nat /\
   count is_advance_to_go chest = 1%nat /\
   count is_nearest_railroad chest = 0%nat /\
   count is_nearest_utility chest = 0%nat /\
   count is_go_back chest = 0%nat /\
   count is_send_to_jail chest = 1%nat /\
   count is_no_op chest = 14%nat).
Proof.
  cbv zeta. unfold ChanceDeck, CommunityChestDeck.
  pose proof (new_deck_cards chance_cards g) as Hc.
  pose proof (new_deck_cards community_chest_cards g) as Hd.
  split.
  - rewrite !(count_Permutation _ _ _ Hc), Hc. repeat split; reflexivity.
  - rewrite !(count_Permutation _ _ _ Hd), Hd. repeat split; reflexivity.
Qed.

(** C2, as stated: the Chance deck built from [example_generator] does not
    hold 3 advance-to cards; it holds 4, and with only 3 the kinds listed
    would add up to 15 cards, not 16. *)
Lemma fresh_chance_deck_four_advance_to :
  let chance := cards (fst (ChanceDeck example_generator)) in
  length chance = 16%nat /\
  count is_advance_to chance <> 3%nat /\
  (3 + 2 + 1 + 1 + 1 + 7 <> 16)%nat.
Proof. vm_compute. repeat split; discriminate. Qed.

Lemma pop_nonempty {A : Type} (l : list A) :
  l <> [] ->
  exists c, last l = Some c /\ pop l = Ok (c, removelast l).
Proof.
  intros Hl. unfold pop.
  destruct (last l) as [c|] eqn:Hlast; [by exists c|].
  by apply last_None in Hlast.
Qed.

Lemma shuffle_nonempty {A : Type} (x : list A) (g : Random.State) :
  x <> [] -> fst (Random.shuffle x g) <> [].
Proof.
  intros Hx Hnil. apply Hx.
  apply Permutation_nil_r. rewrite <- Hnil.
  symmetry. apply shuffle_Permutation.
Qed.

(** What one [draw] does on a deck whose card list is not empty. *)
Lemma draw_spec (d : Deck) (g : Random.State) :
  all_cards d <> [] ->
  exists c d' g',
    draw d g = Ok (c, d', g') /\
    all_cards d' = all_cards d /\
    ((cards d = [] /\
      let refill := fst (Random.shuffle (all_cards d) g) in
      refill ≡ₚ all_cards d /\
      last refill = Some c /\
      cards d' = removelast refill /\
      g' = snd (Random.shuffle (all_cards d) g))
     \/
     (cards d <> [] /\
      last (cards d) = Some c /\
      cards d' = removelast (cards d) /\
      g' = g)).
Proof.
  intros Hall. unfold draw.
  destruct (cards d) as [|c0 rest] eqn:Hcards.
  - unfold shuffle.
    pose proof (shuffle_Permutation (all_cards d) g) as Hperm.
    pose proof (shuffle_nonempty (all_cards d) g Hall) as Hne.
    destruct (Random.shuffle (all_cards d) g) as [refill g1].
    cbn [fst snd] in *. cbn [cards all_cards].
    destruct (pop_nonempty refill Hne) as (c & Hlast & ->).
    exists c, {| all_cards := all_cards d; cards := removelast refill |}, g1.
    cbn. split; [done|]. split; [done|]. left. done.
  - rewrite Hcards.
    destruct (pop_nonempty (c0 :: rest)) as (c & Hlast & ->); [done|].
    exists c, {| all_cards := all_cards d; cards := removelast (c0 :: rest) |}, g.
    split; [done|]. split; [done|]. right. done.
Qed.

Lemma reachable_deck_all_cards (cs : list Card) (d : Deck) :
  cs <> [] -> reachable_deck cs d -> all_cards d = cs.
Proof.
  intros Hcs. induction 1 as [g|d d' g g' c _ IH Hdraw].
  - apply new_deck_all_cards.
  - destruct (draw_spec d g) as (c1 & d1 & g1 & Hd & Hall & _);
      [by rewrite IH|].
    rewrite Hd in Hdraw. by simplify_eq.
Qed.

(** C8.  At every state reachable from a freshly built Chance or Community
    Chest deck, [draw] returns a card and never raises: an empty deck is
    first refilled with a shuffle of its 16 cards, and in both cases the
    card returned is the last one and the deck keeps the others. *)
Theorem draw_always_succeeds (cs : list Card) (d : Deck) (g : Random.State) :
  cs = chance_cards \/ cs = community_chest_cards ->
  reachable_deck cs d ->
  exists c d' g',
    draw d g = Ok (c, d', g') /\
    reachable_deck cs d' /\
    ((cards d = [] /\
      let refill := fst (Random.shuffle cs g) in
      refill ≡ₚ cs /\ length refill = 16%nat /\
      last refill = Some c /\
      cards d' = removelast refill /\
      g' = snd (Random.shuffle cs g))
     \/
     (cards d <> [] /\
      last (cards d) = Some c /\
      cards d' = removelast (cards d) /\
      g' = g)).
Proof.
  intros Hcs Hreach.
  assert (Hne : cs <> []) by (destruct Hcs as [-> | ->]; discriminate).
  assert (Hlen : length cs = 16%nat) by (destruct Hcs as [-> | ->]; reflexivity).
  pose proof (reachable_deck_all_cards cs d Hne Hreach) as Hall.
  destruct (draw_spec d g) as (c & d' & g' & Hd & _ & Hcases);
    [by rewrite Hall|].
  exists c, d', g'. split; [exact Hd|].
  split; [by eapply reachable_draw|].
  rewrite Hall in Hcases.
  destruct Hcases as [(Hnil & Hperm & Hlast & Hrest & Hg) | Hcons].
  - left. cbv zeta in *. repeat split; try done.
    by rewrite Hperm.
  - by right.
Qed.

Lemma draw_always_succeeds_witness :
  (chance_cards = chance_cards \/ chance_cards = community_chest_cards) /\
  reachable_deck chance_cards (fst (new_deck chance_cards example_generator)) /\
  exists c d' g',
    draw (fst (new_deck chance_cards example_generator)) example_generator
      = Ok (c, d', g') /\
    reachable_deck chance_cards d'.
Proof.
  assert (H1 : chance_cards = chance_cards \/
               chance_cards = community_chest_cards) by (left; reflexivity).
  assert (H2 : reachable_deck chance_cards
                 (fst (new_deck chance_cards example_generator)))
    by apply reachable_new.
  split; [exact H1|]. split; [exact H2|].
  destruct (draw_always_succeeds chance_cards _ example_generator H1 H2)
    as (c & d' & g' & Hd & Hr & _).
  exists c, d', g'. split; assumption.
Defined.

Lemma last_elem_of {A : Type} (l : list A) (c : A) :
  last l = Some c -> c ∈ l.
Proof.
  apply last_Some_elem_of.
Qed.

Lemma removelast_elem_of {A : Type} (l : list A) (c : A) :
  c ∈ removelast l -> c ∈ l.
Proof.
  induction l as [|a l IH]; [done|].
  cbn. destruct l as [|b l]; [by intros ?%elem_of_nil|].
  intros [->|Hin]%elem_of_cons; [left|right; by apply IH].
Qed.

Lemma draw_over (cs : list Card) (d : Deck) (g : Random.State) :
  cs <> [] ->
  deck_over cs d ->
  exists c d' g',
    draw d g = Ok (c, d', g') /\ c ∈ cs /\ deck_over cs d'.
Proof.
  intros Hcs [Hall Hsub].
  destruct (draw_spec d g) as (c & d' & g' & Hd & Hall' & Hcases);
    [by rewrite Hall|].
  exists c, d', g'. split; [exact Hd|].
  rewrite Hall in *.
  destruct Hcases as [(_ & Hperm & Hlast & Hrest & _) | (_ & Hlast & Hrest & _)];
    cbv zeta in *.
  - split.
    + rewrite <- Hperm. by apply last_elem_of.
    + split; [done|]. intros c' Hc'. rewrite Hrest in Hc'.
      rewrite <- Hperm. by apply removelast_elem_of.
  - split.
    + by apply Hsub, last_elem_of.
    + split; [done|]. intros c' Hc'. rewrite Hrest in Hc'.
      by apply Hsub, removelast_elem_of.
Qed.

Lemma reachable_deck_over (cs : list Card) (d : Deck) :
  cs <> [] -> reachable_deck cs d -> deck_over cs d.
Proof.
  intros Hcs. induction 1 as [g|d d' g g' c _ IH Hdraw].
  - split; [apply new_deck_all_cards|].
    intros c. by rewrite new_deck_cards.
  - destruct (draw_over cs d g Hcs IH) as (c1 & d1 & g1 & Hd & _ & Hover).
    rewrite Hd in Hdraw. by simplify_eq.
Qed.

(** * Landing resolution *)

Lemma chance_not_community_chest (p : Z) :
  is_chance p = true -> is_community_chest p = false.
Proof.
  unfold is_chance, contains. cbn.
  rewrite orb_false_r, !orb_true_iff, !Z.eqb_eq.
  intros [-> | [-> | ->]]; reflexivity.
Qed.

Lemma contains_In (spaces : list Z) (p : Z) :
  contains spaces p = true -> In p spaces.
Proof.
  unfold contains. rewrite existsb_exists.
  intros (q & Hin & Heq). apply Z.eqb_eq in Heq. by subst.
Qed.

Lemma chance_targets (c : Card) (p : Z) :
  c ∈ chance_cards -> is_chance p = true -> card_target_ok p c = true.
Proof.
  intros Hc%list_elem_of_In Hp%contains_In.
  assert (H : forallb (fun c => forallb (fun p => card_target_ok p c)
                                  CHANCE_SPACES) chance_cards = true)
    by reflexivity.
  rewrite forallb_forall in H. specialize (H c Hc).
  rewrite forallb_forall in H. exact (H p Hp).
Qed.

Lemma chest_targets (c : Card) (p : Z) :
  c ∈ community_chest_cards -> is_community_chest p = true ->
  card_target_ok p c = true.
Proof.
  intros Hc%list_elem_of_In Hp%contains_In.
  assert (H : forallb (fun c => forallb (fun p => card_target_ok p c)
                                  COMMUNITY_CHEST_SPACES)
                community_chest_cards = true)
    by reflexivity.
  rewrite forallb_forall in H. specialize (H c Hc).
  rewrite forallb_forall in H. exact (H p Hp).
Qed.

Lemma rank_bounds (p : Z) : (1 <= rank p <= 3)%nat.
Proof. unfold rank. destruct (p =? 36), (is_card_space p); lia. Qed.

(** More recursion depth never changes a result that was reached. *)
Lemma resolve_card_mono (rec1 rec2 : World -> result (Z * World))
    (c : Card) (w : World) (o1 o2 : result (Z * World)) (r : Z * World) :
  (forall w' r', rec1 w' = Ok r' -> rec2 w' = Ok r') ->
  (o1 = Ok r -> o2 = Ok r) ->
  resolve_card rec1 c w o1 = Ok r ->
  resolve_card rec2 c w o2 = Ok r.
Proof.
  intros Hrec Ho. unfold resolve_card.
  destruct (affects_position c); [|exact Ho].
  destruct (apply c (position (self w))) as [q j].
  destruct j; [done|]. apply Hrec.
Qed.

Lemma community_chest_branch_mono (rec1 rec2 : World -> result (Z * World))
    (w : World) (r : Z * World) :
  (forall w' r', rec1 w' = Ok r' -> rec2 w' = Ok r') ->
  community_chest_branch rec1 w = Ok r ->
  community_chest_branch rec2 w = Ok r.
Proof.
  intros Hrec. unfold community_chest_branch.
  destruct (is_community_chest (position (self w))); [|done].
  destruct (draw (community_chest_deck w) (rng w)) as [[[c d] g]|e];
    cbn; [|done].
  by apply resolve_card_mono.
Qed.

Lemma process_landing_step (d : nat) (w : World) (r : Z * World) :
  _process_landing d w = Ok r -> _process_landing (S d) w = Ok r.
Proof.
  revert w r. induction d as [|d IH]; intros w r; [done|].
  remember (S d) as d1 eqn:Hd1.
  rewrite Hd1 at 1. cbn [_process_landing].
  destruct (position (self w) =? GO_TO_JAIL_SPACE); [done|].
  destruct (is_chance (position (self w))).
  - destruct (draw (chance_deck w) (rng w)) as [[[c dk] g]|e]; cbn; [|done].
    apply resolve_card_mono; [subst d1; exact IH|].
    apply community_chest_branch_mono. subst d1; exact IH.
  - apply community_chest_branch_mono. subst d1; exact IH.
Qed.

Lemma process_landing_mono (d d' : nat) (w : World) (r : Z * World) :
  (d <= d')%nat ->
  _process_landing d w = Ok r -> _process_landing d' w = Ok r.
Proof.
  induction 1 as [|d' _ IH]; [done|].
  intros H. by apply process_landing_step, IH.
Qed.

Lemma landed_refl (p : Player) : landed p p.
Proof. left. by destruct p. Qed.

Lemma landed_set_position (q : Z) (p p' : Player) :
  landed (set_position q p) p' -> landed p p'.
Proof. intros [H | H]; [left | right]; rewrite H at 1; reflexivity. Qed.

Lemma resolve_card_total (recur : World -> result (Z * World)) (c : Card)
    (w : World) (otherwise : result (Z * World)) (d : nat) :
  landing_ok w ->
  card_target_ok (position (self w)) c = true ->
  (forall w1, landing_ok w1 -> (rank (position (self w1)) <= d)%nat ->
              lands w1 (recur w1)) ->
  (rank (position (self w)) <= S d)%nat ->
  (affects_position c = false -> lands w otherwise) ->
  lands w (resolve_card recur c w otherwise).
Proof.
  intros (Hpos & Hch & Hcc) Htarget Hrec Hrank Hother.
  unfold resolve_card, card_target_ok in *.
  destruct (affects_position c); [|by apply Hother].
  cbn [negb orb] in Htarget.
  destruct (apply c (position (self w))) as [q j].
  apply andb_true_iff in Htarget as [Hq Hj].
  apply andb_true_iff in Hq as [Hq0 Hq39].
  apply Z.leb_le in Hq0, Hq39.
  destruct j.
  - apply Z.eqb_eq in Hj. subst q.
    exists (with_self (jailed_by_card (set_position JAIL_SPACE (self w))) w).
    split; [reflexivity|]. split.
    + split; [|by split]. cbn. unfold on_board, JAIL_SPACE. lia.
    + right. reflexivity.
  - apply Nat.ltb_lt in Hj.
    destruct (Hrec (with_self (set_position q (self w)) w))
      as (w' & Hw' & Hok & Hland).
    + split; [|by split]. cbn. unfold on_board. lia.
    + cbn. lia.
    + exists w'. split; [exact Hw'|]. split; [exact Hok|].
      apply (landed_set_position q). exact Hland.
Qed.

Lemma community_chest_branch_total (recur : World -> result (Z * World))
    (w : World) (d : nat) :
  landing_ok w ->
  (forall w1, landing_ok w1 -> (rank (position (self w1)) <= d)%nat ->
              lands w1 (recur w1)) ->
  (rank (position (self w)) <= S d)%nat ->
  lands w (community_chest_branch recur w).
Proof.
  intros Hok Hrec Hrank. unfold community_chest_branch.
  destruct (is_community_chest (position (self w))) eqn:Hcc.
  - destruct Hok as (Hpos & Hchance & Hchest).
    destruct (draw_over community_chest_cards (community_chest_deck w) (rng w))
      as (c & dk & g & Hdraw & Hc & Hover); [done|done|].
    rewrite Hdraw. cbn.
    set (w1 := {| self := self w; chance_deck := chance_deck w;
                  community_chest_deck := dk; rng := g |}).
    assert (Hok1 : landing_ok w1) by (split; [exact Hpos | by split]).
    destruct (resolve_card_total recur c w1
                (Ok (position (self w1), w1)) d) as (w' & Hw' & ? & ?);
      try done.
    + by apply chest_targets.
    + intros _. exists w1. split; [done|]. split; [done|]. apply landed_refl.
    + by exists w'.
  - exists w. split; [done|]. split; [done|]. apply landed_refl.
Qed.

(** Landing resolution returns as soon as the depth allowed reaches the
    rank of the space landed on. *)
Lemma process_landing_total (d : nat) (w : World) :
  landing_ok w ->
  (rank (position (self w)) <= d)%nat ->
  lands w (_process_landing d w).
Proof.
  revert w. induction d as [|d IH]; intros w Hok Hrank.
  { pose proof (rank_bounds (position (self w))). lia. }
  cbn [_process_landing].
  destruct (position (self w) =? GO_TO_JAIL_SPACE) eqn:Hjail.
  { destruct Hok as (Hpos & Hchance & Hchest).
    exists (with_self (send_to_jail (self w)) w).
    split; [reflexivity|]. split.
    - split; [|by split]. cbn. unfold on_board, JAIL_SPACE. lia.
    - right. reflexivity. }
  assert (Hrec : forall w1, landing_ok w1 ->
                   (rank (position (self w1)) <= d)%nat ->
                   lands w1 (_process_landing d w1))
    by (intros; by apply IH).
  destruct (is_chance (position (self w))) eqn:Hch.
  - pose proof Hok as (Hpos & Hchance & Hchest).
    destruct (draw_over chance_cards (chance_deck w) (rng w))
      as (c & dk & g & Hdraw & Hc & Hover); [done|done|].
    rewrite Hdraw. cbn.
    set (w1 := {| self := self w; chance_deck := dk;
                  community_chest_deck := community_chest_deck w;
                  rng := g |}).
    assert (Hok1 : landing_ok w1) by (split; [exact Hpos | by split]).
    destruct (resolve_card_total (_process_landing d) c w1
                (community_chest_branch (_process_landing d) w1) d)
      as (w' & Hw' & ? & ?); try done.
    + by apply chance_targets.
    + intros _. unfold community_chest_branch.
      change (position (self w1)) with (position (self w)).
      rewrite (chance_not_community_chest _ Hch).
      exists w1. split; [done|]. split; [done|]. apply landed_refl.
    + by exists w'.
  - by apply (community_chest_branch_total _ _ d).
Qed.

Lemma start_world_decks (strategy : string) (g : Random.State) :
  reachable_deck chance_cards (chance_deck (start_world strategy g)) /\
  reachable_deck community_chest_cards
    (community_chest_deck (start_world strategy g)).
Proof.
  unfold start_world, create_decks, ChanceDeck, CommunityChestDeck.
  pose proof (reachable_new chance_cards g) as H1.
  destruct (new_deck chance_cards g) as [chance g1].
  pose proof (reachable_new community_chest_cards g1) as H2.
  destruct (new_deck community_chest_cards g1) as [chest g2].
  by split.
Qed.

Lemma start_world_self (strategy : string) (g : Random.State) :
  self (start_world strategy g) = Player.__init__ strategy.
Proof.
  unfold start_world, create_decks.
  destruct (ChanceDeck g) as [chance g1].
  by destruct (CommunityChestDeck g1) as [chest g2].
Qed.

Lemma with_self_decks (p : Player) (w : World) :
  chance_deck (with_self p w) = chance_deck w /\
  community_chest_deck (with_self p w) = community_chest_deck w.
Proof. by split. Qed.

Lemma with_self_self (p : Player) (w : World) : self (with_self p w) = p.
Proof. reflexivity. Qed.

Lemma world_at_decks (space : Z) (g : Random.State) :
  reachable_deck chance_cards (chance_deck (world_at space g)) /\
  reachable_deck community_chest_cards
    (community_chest_deck (world_at space g)).
Proof.
  unfold world_at.
  destruct (with_self_decks (set_position space (Player.__init__ "A"))
              (start_world "A" g)) as [-> ->].
  apply start_world_decks.
Qed.

Lemma world_at_position (space : Z) (g : Random.State) :
  position (self (world_at space g)) = space.
Proof. unfold world_at. by rewrite with_self_self. Qed.

Lemma chance_chain (c : Card) (p q : Z) :
  c ∈ chance_cards -> is_chance p = true ->
  affects_position c = true -> apply c p = (q, false) ->
  is_card_space q = true ->
  c = GoBackCard /\ p = 36 /\ q = 33.
Proof.
  intros Hc%list_elem_of_In Hp%contains_In Ha Happ Hq.
  assert (H : forallb (fun c => forallb (fun p =>
                if affects_position c then
                  let '(q, j) := apply c p in
                  j || negb (is_card_space q) ||
                  (is_go_back c && (p =? 36) && (q =? 33))
                else true) CHANCE_SPACES) chance_cards = true)
    by reflexivity.
  rewrite forallb_forall in H. specialize (H c Hc).
  rewrite forallb_forall in H. specialize (H p Hp).
  rewrite Ha, Happ, Hq in H. cbn in H.
  apply andb_true_iff in H as [H H33].
  apply andb_true_iff in H as [Hgb H36].
  apply Z.eqb_eq in H33, H36.
  by destruct c.
Qed.

Lemma chest_targets_plain (c : Card) (p q : Z) (j : bool) :
  c ∈ community_chest_cards ->
  affects_position c = true -> apply c p = (q, j) ->
  (q = GO_SPACE \/ q = JAIL_SPACE) /\ is_card_space q = false.
Proof.
  intros Hc%list_elem_of_In Ha Happ.
  assert (H : forallb (fun c => match c with
                                | AdvanceToCard _ t => t =? GO_SPACE
                                | GoToJailCard => true
                                | BaseCard _ b => negb b
                                | _ => false
                                end) community_chest_cards = true)
    by reflexivity.
  rewrite forallb_forall in H. specialize (H c Hc).
  destruct c; cbn in *; try discriminate.
  - subst. discriminate.
  - apply Z.eqb_eq in H. simplify_eq. by split; [left|].
  - simplify_eq. by split; [right|].
Qed.

(** C9.  From every board position and every reachable state of the two
    decks, landing resolution returns within three nested calls, and a
    larger recursion limit gives the same result.  A Chance card that
    moves the player off a Chance space onto another card space is Go
    Back 3 drawn on 36, which leads to Community Chest at 33; a Community
    Chest card that moves the player sends it to Go or to Jail, neither
    of which is a card space. *)
Theorem landing_resolution_terminates (w : World) :
  on_board (position (self w)) ->
  reachable_deck chance_cards (chance_deck w) ->
  reachable_deck community_chest_cards (community_chest_deck w) ->
  (exists r, _process_landing 3 w = Ok r /\
             forall depth, (3 <= depth)%nat -> _process_landing depth w = Ok r) /\
  (forall c p q,
      c ∈ chance_cards -> is_chance p = true ->
      affects_position c = true -> apply c p = (q, false) ->
      is_card_space q = true ->
      c = GoBackCard /\ p = 36 /\ q = 33 /\ is_community_chest q = true) /\
  (forall c p q j,
      c ∈ community_chest_cards ->
      affects_position c = true -> apply c p = (q, j) ->
      (q = GO_SPACE \/ q = JAIL_SPACE) /\ is_card_space q = false).
Proof.
  intros Hpos Hchance Hchest.
  apply reachable_deck_over in Hchance; [|done].
  apply reachable_deck_over in Hchest; [|done].
  split; [|split].
  - destruct (process_landing_total 3 w) as (w' & Hw' & _).
    + by split.
    + apply rank_bounds.
    + eexists. split; [exact Hw'|].
      intros depth Hdepth. by apply (process_landing_mono 3).
  - intros c p q Hc Hp Ha Happ Hq.
    destruct (chance_chain c p q) as (-> & -> & ->); done.
  - apply chest_targets_plain.
Qed.

Lemma landing_resolution_terminates_witness :
  on_board (position (self (world_at 36 example_generator))) /\
  reachable_deck chance_cards
    (chance_deck (world_at 36 example_generator)) /\
  reachable_deck community_chest_cards
    (community_chest_deck (world_at 36 example_generator)) /\
  exists r, _process_landing 3 (world_at 36 example_generator) = Ok r.
Proof.
  pose proof (world_at_decks 36 example_generator) as [H1 H2].
  assert (H0 : on_board (position (self (world_at 36 example_generator))))
    by (rewrite world_at_position; unfold on_board; lia).
  split; [exact H0|]. split; [exact H1|]. split; [exact H2|].
  destruct (landing_resolution_terminates (world_at 36 example_generator)
              H0 H1 H2) as ((r & Hr & _) & _).
  by exists r.
Defined.

(** The bound of C9 is reached: the chain 36, 33, 0 needs three nested
    calls and fails with two. *)
Example deepest_chain :
  _process_landing 2 chain_world = Raise RecursionError /\
  exists w', _process_landing 3 chain_world = Ok (0, w').
Proof. split; [reflexivity|]. eexists. reflexivity. Qed.

(** * Dice and turns *)

Lemma randint_range (g : Random.State) :
  1 <= fst (Random.randint 1 6 g) <= 6.
Proof.
  unfold Random.randint, Random.randbelow. cbn [fst].
  change (Z.to_nat (6 - 1 + 1)) with 6%nat.
  pose proof (Nat.mod_upper_bound
                (Random.stream g (Random.cursor g)) 6) as H.
  lia.
Qed.

Lemma roll_dice_spec (g : Random.State) :
  exists die1 die2 g',
    roll_dice g = (die1, die2, die1 + die2, die1 =? die2, g') /\
    1 <= die1 <= 6 /\ 1 <= die2 <= 6.
Proof.
  unfold roll_dice.
  pose proof (randint_range g) as H1.
  destruct (Random.randint 1 6 g) as [die1 g1].
  pose proof (randint_range g1) as H2.
  destruct (Random.randint 1 6 g1) as [die2 g2].
  by exists die1, die2, g2.
Qed.

Lemma process_landing_post (d : nat) (w w' : World) (pos : Z) :
  landing_ok w ->
  _process_landing d w = Ok (pos, w') ->
  pos = position (self w') /\ landing_ok w' /\ landed (self w) (self w').
Proof.
  intros Hok Hrun.
  destruct (process_landing_total (Nat.max d 3) w Hok) as (w1 & Hw1 & H1 & H2).
  { pose proof (rank_bounds (position (self w))). lia. }
  apply (process_landing_mono d (Nat.max d 3)) in Hrun; [|lia].
  rewrite Hrun in Hw1. by simplify_eq.
Qed.

Lemma process_landing_succeeds (d : nat) (w : World) :
  landing_ok w -> (3 <= d)%nat ->
  exists w', _process_landing d w = Ok (position (self w'), w') /\
             landing_ok w' /\ landed (self w) (self w').
Proof.
  intros Hok Hd. apply process_landing_total; [done|].
  pose proof (rank_bounds (position (self w))). lia.
Qed.

(** The jail step under the policy B. *)
Lemma handle_jail_turn_B (p : Player) (g : Random.State) :
  jail_strategy p = "B"%string ->
  exists die1 die2 g',
    roll_dice g = (die1, die2, die1 + die2, die1 =? die2, g') /\
    handle_jail_turn p g = (Some (die1 + die2), leave_jail p, g').
Proof.
  intros HB. unfold handle_jail_turn. rewrite HB, String.eqb_refl.
  destruct (roll_dice_spec g) as (die1 & die2 & g' & Hroll & _).
  rewrite Hroll. by exists die1, die2, g'.
Qed.

(** The jail step under any other policy. *)
Lemma handle_jail_turn_A (p : Player) (g : Random.State) :
  jail_strategy p <> "B"%string ->
  exists die1 die2 g',
    roll_dice g = (die1, die2, die1 + die2, die1 =? die2, g') /\
    handle_jail_turn p g =
      if (die1 =? die2) || (jail_turns p + 1 >=? 3)
      then (Some (die1 + die2), leave_jail p, g')
      else (None, set_jail_turns (jail_turns p + 1) p, g').
Proof.
  intros HB. unfold handle_jail_turn.
  apply String.eqb_neq in HB. rewrite HB.
  destruct (roll_dice_spec g) as (die1 & die2 & g' & Hroll & _).
  rewrite Hroll. exists die1, die2, g'. split; [done|].
  destruct (die1 =? die2); [done|]. cbn.
  by destruct (jail_turns p + 1 >=? 3).
Qed.

(** What the jail step can do, whatever the policy. *)
Lemma handle_jail_turn_cases (p : Player) (g : Random.State) :
  exists total g',
    2 <= total <= 12 /\
    (handle_jail_turn p g = (Some total, leave_jail p, g') \/
     (handle_jail_turn p g = (None, set_jail_turns (jail_turns p + 1) p, g') /\
      jail_strategy p <> "B"%string /\ jail_turns p + 1 < 3)).
Proof.
  destruct (roll_dice_spec g) as (die1 & die2 & g' & Hroll & Hd1 & Hd2).
  exists (die1 + die2), g'. split; [lia|].
  destruct (String.eqb_spec (jail_strategy p) "B") as [HB | HB].
  - left. destruct (handle_jail_turn_B p g HB) as (e1 & e2 & g2 & Hr & ->).
    rewrite Hroll in Hr.
    assert (e1 = die1 /\ e2 = die2 /\ g2 = g') as (-> & -> & ->)
      by (by simplify_eq).
    reflexivity.
  - destruct (handle_jail_turn_A p g HB) as (e1 & e2 & g2 & Hr & ->).
    rewrite Hroll in Hr.
    assert (e1 = die1 /\ e2 = die2 /\ g2 = g') as (-> & -> & ->)
      by (by simplify_eq).
    destruct (die1 =? die2); [by left|]. cbn.
    destruct (jail_turns p + 1 >=? 3) eqn:Hge; [by left|].
    right. split; [done|]. split; [done|]. lia.
Qed.

Lemma landed_world_ok (p : Player) (w' : World) :
  landing_ok w' ->
  landed p (self w') ->
  in_jail p = false ->
  0 <= jail_turns p <= 2 ->
  0 <= consecutive_doubles p <= 2 ->
  world_ok w' /\ jail_strategy (self w') = jail_strategy p.
Proof.
  intros Hok Hl Hfree Hjt Hcd. unfold world_ok.
  destruct (self w') as [pos' jail' jt' cd' s'].
  destruct Hl as [H | H]; unfold set_position, send_to_jail in H;
    cbn in H; simplify_eq; cbn.
  - split; [|done]. split; [exact Hok|].
    repeat split; try lia. by rewrite Hfree.
  - split; [|done]. split; [exact Hok|].
    repeat split; lia.
Qed.

(** Landing resolution for a free player: what it returns, and that it
    returns when three nested calls are allowed. *)
Lemma landing_from (depth : nat) (w : World) :
  landing_ok w ->
  in_jail (self w) = false ->
  0 <= jail_turns (self w) <= 2 ->
  0 <= consecutive_doubles (self w) <= 2 ->
  (forall pos w', _process_landing depth w = Ok (pos, w') ->
     pos = position (self w') /\ world_ok w' /\
     jail_strategy (self w') = jail_strategy (self w)) /\
  ((3 <= depth)%nat -> exists pos w', _process_landing depth w = Ok (pos, w')).
Proof.
  intros Hok Hfree Hjt Hcd. split.
  - intros pos w' Hrun.
    destruct (process_landing_post depth w w' pos Hok Hrun) as (-> & Hok' & Hl).
    split; [done|]. by apply landed_world_ok.
  - intros Hd.
    destruct (process_landing_succeeds depth w Hok Hd) as (w' & Hw' & _).
    by exists (position (self w')), w'.
Qed.

Ltac solve_ok :=
  unfold world_ok, landing_ok, on_board, JAIL_SPACE in *;
  cbn [self chance_deck community_chest_deck rng position in_jail jail_turns
       consecutive_doubles jail_strategy set_jail_turns send_to_jail
       set_position set_consecutive_doubles leave_jail with_self
       move_forward];
  unfold JAIL_SPACE;
  intuition (try lia; try congruence).

Ltac apply_landing_from depth :=
  match goal with
  | |- context [_process_landing depth ?w0] => apply (landing_from depth w0)
  end.

Lemma move_forward_on_board (spaces : Z) (p : Player) :
  on_board (position (move_forward spaces p)).
Proof.
  unfold on_board. cbn.
  pose proof (Z.mod_pos_bound (position p + spaces) 40). lia.
Qed.

(** One turn from a world satisfying the invariant: what a returned turn
    yields, and that the turn returns when three nested landing calls are
    allowed. *)
Lemma take_turn_spec (depth : nat) (w : World) :
  world_ok w ->
  (forall pos w', take_turn depth w = Ok (pos, w') ->
     pos = position (self w') /\ world_ok w' /\
     jail_strategy (self w') = jail_strategy (self w)) /\
  ((3 <= depth)%nat -> exists pos w', take_turn depth w = Ok (pos, w')).
Proof.
  intros ((Hpos & Hch & Hcc) & Hjt & Hcd & Hjail).
  unfold take_turn.
  destruct (in_jail (self w)) eqn:Hin.
  - destruct (handle_jail_turn_cases (self w) (rng w))
      as (total & g' & Ht & [H | (H & _ & Hlt)]); rewrite H.
    + apply_landing_from depth;
        [split; [apply move_forward_on_board | by split] | solve_ok..].
    + split.
      * intros pos w' Heq. simplify_eq. solve_ok.
      * intros _. by eexists _, _.
  - destruct (roll_dice_spec (rng w)) as (die1 & die2 & g' & Hroll & Hd1 & Hd2).
    rewrite Hroll.
    destruct (die1 =? die2) eqn:Hdbl;
      cbn [andb self consecutive_doubles set_consecutive_doubles].
    + rewrite Z.geb_leb.
      destruct (Z.leb_spec 3 (consecutive_doubles (self w) + 1)) as [Hthird | Hthird].
      * split.
        -- intros pos w' Heq. simplify_eq. solve_ok.
        -- intros _. by eexists _, _.
      * apply_landing_from depth;
          [split; [apply move_forward_on_board | by split] | solve_ok..].
    + apply_landing_from depth;
        [split; [apply move_forward_on_board | by split] | solve_ok..].
Qed.

Lemma start_world_ok (strategy : string) (g : Random.State) :
  world_ok (start_world strategy g) /\
  jail_strategy (self (start_world strategy g)) = strategy.
Proof.
  destruct (start_world_decks strategy g) as [H1 H2].
  apply reachable_deck_over in H1; [|done].
  apply reachable_deck_over in H2; [|done].
  unfold world_ok, landing_ok, on_board.
  rewrite !start_world_self. cbn.
  intuition (try lia; try discriminate).
Qed.

Lemma reachable_world_ok (depth : nat) (strategy : string) (w : World) :
  reachable_world depth strategy w ->
  world_ok w /\ jail_strategy (self w) = strategy.
Proof.
  induction 1 as [g | w w' pos _ [IHok IHs] Hturn].
  - apply start_world_ok.
  - destruct (take_turn_spec depth w IHok) as [Hpost _].
    destruct (Hpost pos w' Hturn) as (_ & Hok & Hs).
    split; [done | congruence].
Qed.

(** C4.  A free player that rolls doubles for the third time in a row goes
    to jail: the turn returns the Jail space 10, the player stands exactly
    there whatever the dice total, [jail_turns] and [consecutive_doubles]
    are 0, and neither deck is touched.  This holds even when no nested
    landing call at all is allowed, so landing resolution is not run. *)
Theorem third_double_goes_to_jail (depth : nat) (w : World)
    (die1 die2 total : Z) :
  in_jail (self w) = false ->
  consecutive_doubles (self w) = 2 ->
  next_roll (rng w) = (die1, die2, total, true) ->
  exists g',
    take_turn depth w =
      Ok (10, {| self := {| position := 10;
                            in_jail := true;
                            jail_turns := 0;
                            consecutive_doubles := 0;
                            jail_strategy := jail_strategy (self w) |};
                 chance_deck := chance_deck w;
                 community_chest_deck := community_chest_deck w;
                 rng := g' |}) /\
    JAIL_SPACE = 10.
Proof.
  intros Hfree Hcd Hroll. unfold take_turn, next_roll in *.
  rewrite Hfree.
  destruct (roll_dice (rng w)) as [[[[d1 d2] t] dbl] g1].
  assert (dbl = true) as -> by congruence.
  exists g1. cbn. rewrite Hcd. cbn. done.
Qed.

Lemma third_double_goes_to_jail_witness :
  let w := with_self (set_consecutive_doubles 2 (Player.__init__ "A"))
             (start_world "A" doubles_generator) in
  in_jail (self w) = false /\
  consecutive_doubles (self w) = 2 /\
  next_roll (rng w) = (1, 1, 2, true) /\
  exists w', take_turn 0 w = Ok (10, w') /\ position (self w') = 10.
Proof.
  cbv zeta.
  set (w := with_self (set_consecutive_doubles 2 (Player.__init__ "A"))
              (start_world "A" doubles_generator)).
  assert (H1 : in_jail (self w) = false) by reflexivity.
  assert (H2 : consecutive_doubles (self w) = 2) by reflexivity.
  assert (H3 : next_roll (rng w) = (1, 1, 2, true)) by (vm_compute; reflexivity).
  split; [exact H1|]. split; [exact H2|]. split; [exact H3|].
  destruct (third_double_goes_to_jail 0 w 1 1 2 H1 H2 H3) as (g' & Hturn & _).
  eexists. split; [exact Hturn | reflexivity].
Defined.

(** * Jail *)




Lemma play_reachable (depth : nat) (strategy : string) (n : nat)
    (w w' : World) :
  reachable_world depth strategy w ->
  play depth n w = Ok w' ->
  reachable_world depth strategy w'.
Proof.
  revert w. induction n as [|n IH]; intros w Hreach Hplay; cbn in Hplay.
  - by simplify_eq.
  - destruct (take_turn depth w) as [[pos w1]|e] eqn:Hturn; [|done].
    cbn in Hplay. apply (IH w1); [|done].
    by apply (reachable_turn depth strategy w w1 pos).
Qed.

Lemma world_after_reachable (depth : nat) (strategy : string)
    (g : Random.State) (n : nat) :
  reachable_world depth strategy (world_after depth strategy g n).
Proof.
  unfold world_after.
  destruct (play depth n (start_world strategy g)) as [w|e] eqn:Hplay.
  - apply (play_reachable depth strategy n (start_world strategy g));
      [apply reachable_start | done].
  - apply reachable_start.
Qed.


(** Leaving jail is not the same as ending the turn free: under policy B
    the player of [rejail_world] leaves jail, rolls 7, lands on Community
    Chest at 17, draws the send-to-jail card and ends the turn in jail
    again, for one more turn. *)
Example rejailed_on_release :
  in_jail (self rejail_world) = true /\
  leaves_jail rejail_world = true /\
  exists w', take_turn 3 rejail_world = Ok (JAIL_SPACE, w') /\
             in_jail (self w') = true /\ jail_turns (self w') = 0.
Proof.
  split; [reflexivity|]. split; [reflexivity|].
  eexists. split; [vm_compute; reflexivity|]. split; reflexivity.
Qed.

(** * Positions *)

Lemma apply_on_board (c : Card) (p : Z) :
  c ∈ chance_cards \/ c ∈ community_chest_cards ->
  on_board p -> on_board (fst (apply c p)).
Proof.
  intros Hc Hp.
  assert (Hshape : match c with
                   | AdvanceToCard _ t => (0 <=? t) && (t <=? 39) = true
                   | _ => True
                   end).
  { assert (H : forallb (fun c => match c with
                                  | AdvanceToCard _ t => (0 <=? t) && (t <=? 39)
                                  | _ => true
                                  end)
                  (chance_cards ++ community_chest_cards) = true)
      by reflexivity.
    rewrite forallb_forall in H. specialize (H c).
    destruct c; try done. apply H, in_app_iff.
    destruct Hc as [Hc | Hc]; [left | right]; by apply list_elem_of_In. }
  unfold on_board in *.
  destruct c as [n b | n t | | | |]; cbn [apply fst].
  - exact Hp.
  - apply andb_true_iff in Hshape as [H0 H39]. lia.
  - unfold JAIL_SPACE. lia.
  - pose proof (Z.mod_pos_bound (p - 3) 40). lia.
  - unfold nearest. cbn.
    repeat (destruct (_ >? p); [lia|]). lia.
  - unfold nearest. cbn.
    repeat (destruct (_ >? p); [lia|]). lia.
Qed.

Lemma np_increment_on_board (counts : list Z) (pos : Z) :
  length counts = 40%nat ->
  on_board pos ->
  exists c,
    counts !! Z.to_nat pos = Some c /\
    np_increment counts pos =
      Ok (<[Z.to_nat pos := wrap_int64 (c + 1)]> counts).
Proof.
  intros Hlen Hpos. unfold on_board in Hpos.
  unfold np_increment, np_index. rewrite Hlen.
  replace ((0 <=? pos) && (pos <? Z.of_nat 40)) with true
    by (symmetry; apply andb_true_iff; split;
        [apply Z.leb_le | apply Z.ltb_lt]; lia).
  cbn.
  destruct (lookup_lt_is_Some_2 counts (Z.to_nat pos)) as [c Hc]; [lia|].
  exists c. by rewrite Hc.
Qed.

(** C6.  In every trajectory started at Go, the player's position is on
    the board between any two turns; the position a turn returns is the
    player's position, lies in [0, 39], and is the index the aggregator
    increments; a turn returns whenever three nested landing calls are
    allowed.  Every movement the turn performs reduces modulo 40 or moves
    to a space on the board: [move_forward], Go Back 3, and every card of
    the two decks. *)
Theorem position_stays_on_board (depth : nat) (strategy : string)
    (w : World) :
  reachable_world depth strategy w ->
  on_board (position (self w)) /\
  (forall pos w',
      take_turn depth w = Ok (pos, w') ->
      on_board pos /\ pos = position (self w') /\
      forall counts, length counts = 40%nat ->
        exists c,
          counts !! Z.to_nat pos = Some c /\
          np_increment counts pos =
            Ok (<[Z.to_nat pos := wrap_int64 (c + 1)]> counts)) /\
  ((3 <= depth)%nat -> exists pos w', take_turn depth w = Ok (pos, w')) /\
  (forall p spaces, on_board (position (move_forward spaces p))) /\
  (forall p, on_board (fst (apply GoBackCard p))) /\
  (forall c p,
      c ∈ chance_cards \/ c ∈ community_chest_cards ->
      on_board p -> on_board (fst (apply c p))).
Proof.
  intros Hreach.
  destruct (reachable_world_ok depth strategy w Hreach) as (Hok & _).
  destruct (take_turn_spec depth w Hok) as [Hpost Htotal].
  split; [apply Hok|]. split; [|split; [exact Htotal|]].
  - intros pos w' Hturn.
    destruct (Hpost pos w' Hturn) as (-> & Hok' & _).
    assert (Hpos : on_board (position (self w'))) by apply Hok'.
    split; [exact Hpos|]. split; [reflexivity|].
    intros counts Hlen. by apply np_increment_on_board.
  - split; [|split].
    + intros p spaces. apply move_forward_on_board.
    + intros p. unfold on_board. cbn.
      pose proof (Z.mod_pos_bound (p - 3) 40). lia.
    + apply apply_on_board.
Qed.

Lemma position_stays_on_board_witness :
  let w := world_after 3 "B" example_generator 5 in
  reachable_world 3 "B" w /\
  on_board (position (self w)) /\
  exists pos w', take_turn 3 w = Ok (pos, w') /\ on_board pos.
Proof.
  cbv zeta.
  assert (H1 : reachable_world 3 "B" (world_after 3 "B" example_generator 5))
    by apply world_after_reachable.
  split; [exact H1|].
  destruct (position_stays_on_board 3 "B" _ H1) as (H0 & Hpost & Htotal & _).
  split; [exact H0|].
  destruct (Htotal (le_n 3)) as (pos & w' & Hturn).
  exists pos, w'. split; [exact Hturn|].
  exact (proj1 (Hpost pos w' Hturn)).
Defined.

(** * Policies *)

Lemma world_with_own_strategy (w : World) :
  world_with_strategy (jail_strategy (self w)) w = w.
Proof. by destruct w as [[] ? ? ?]. Qed.

Lemma handle_jail_turn_relabel (s : string) (p : Player) (g : Random.State) :
  String.eqb s "B" = String.eqb (jail_strategy p) "B" ->
  handle_jail_turn (with_strategy s p) g =
    let '(m, p', g') := handle_jail_turn p g in (m, with_strategy s p', g').
Proof.
  intros Hs. unfold handle_jail_turn.
  cbn [jail_strategy with_strategy]. rewrite Hs.
  destruct (String.eqb (jail_strategy p) "B");
    destruct (roll_dice g) as [[[[d1 d2] t] dbl] g']; [reflexivity|].
  destruct dbl; [reflexivity|]. cbn.
  destruct (jail_turns p + 1 >=? 3); reflexivity.
Qed.

Lemma resolve_card_relabel (s : string)
    (rec1 rec2 : World -> result (Z * World)) (c : Card) (w : World)
    (o1 o2 : result (Z * World)) :
  (forall w', rec2 (world_with_strategy s w') = relabel_result s (rec1 w')) ->
  o2 = relabel_result s o1 ->
  resolve_card rec2 c (world_with_strategy s w) o2 =
    relabel_result s (resolve_card rec1 c w o1).
Proof.
  intros Hrec Ho. unfold resolve_card.
  destruct (affects_position c); [|exact Ho].
  cbn [world_with_strategy with_self self position with_strategy].
  destruct (apply c (position (self w))) as [q j].
  destruct j; [reflexivity|].
  exact (Hrec (with_self (set_position q (self w)) w)).
Qed.

Lemma community_chest_branch_relabel (s : string)
    (rec1 rec2 : World -> result (Z * World)) (w : World) :
  (forall w', rec2 (world_with_strategy s w') = relabel_result s (rec1 w')) ->
  community_chest_branch rec2 (world_with_strategy s w) =
    relabel_result s (community_chest_branch rec1 w).
Proof.
  intros Hrec. unfold community_chest_branch.
  cbn [world_with_strategy with_self self position with_strategy
       community_chest_deck rng chance_deck].
  destruct (is_community_chest (position (self w))); [|reflexivity].
  destruct (draw (community_chest_deck w) (rng w)) as [[[c d] g]|e];
    cbn; [|reflexivity].
  by apply (resolve_card_relabel s rec1 rec2 c
              {| self := self w; chance_deck := chance_deck w;
                 community_chest_deck := d; rng := g |}).
Qed.

(** Landing resolution never reads the policy. *)
Lemma process_landing_relabel (s : string) (d : nat) (w : World) :
  _process_landing d (world_with_strategy s w) =
    relabel_result s (_process_landing d w).
Proof.
  revert w. induction d as [|d IH]; intros w; [reflexivity|].
  cbn [_process_landing].
  cbn [world_with_strategy with_self self position with_strategy
       community_chest_deck rng chance_deck].
  destruct (position (self w) =? GO_TO_JAIL_SPACE); [reflexivity|].
  destruct (is_chance (position (self w))).
  - destruct (draw (chance_deck w) (rng w)) as [[[c dk] g]|e];
      cbn; [|reflexivity].
    apply (resolve_card_relabel s (_process_landing d) (_process_landing d) c
             {| self := self w; chance_deck := dk;
                community_chest_deck := community_chest_deck w; rng := g |});
      [exact IH|].
    by apply (community_chest_branch_relabel s _ _
                {| self := self w; chance_deck := dk;
                   community_chest_deck := community_chest_deck w;
                   rng := g |}).
  - by apply community_chest_branch_relabel.
Qed.

(** A turn reads the policy only to compare it with ["B"]. *)
Lemma take_turn_relabel (s : string) (depth : nat) (w : World) :
  String.eqb s "B" = String.eqb (jail_strategy (self w)) "B" ->
  take_turn depth (world_with_strategy s w) =
    relabel_result s (take_turn depth w).
Proof.
  intros Hs. unfold take_turn.
  cbn [world_with_strategy with_self self in_jail with_strategy
       community_chest_deck rng chance_deck].
  destruct (in_jail (self w)).
  - rewrite (handle_jail_turn_relabel s (self w) (rng w) Hs).
    destruct (handle_jail_turn (self w) (rng w)) as [[m p1] g1].
    destruct m as [m|]; [|reflexivity].
    apply (process_landing_relabel s depth
             {| self := move_forward m p1; chance_deck := chance_deck w;
                community_chest_deck := community_chest_deck w; rng := g1 |}).
  - destruct (roll_dice (rng w)) as [[[[d1 d2] t] dbl] g1].
    cbn [self consecutive_doubles with_strategy].
    destruct dbl; cbn [andb].
    + cbn [consecutive_doubles set_consecutive_doubles].
      destruct (consecutive_doubles (self w) + 1 >=? 3); [reflexivity|].
      apply (process_landing_relabel s depth
               {| self := move_forward t
                            (set_consecutive_doubles
                               (consecutive_doubles (self w) + 1) (self w));
                  chance_deck := chance_deck w;
                  community_chest_deck := community_chest_deck w;
                  rng := g1 |}).
    + apply (process_landing_relabel s depth
               {| self := move_forward t (set_consecutive_doubles 0 (self w));
                  chance_deck := chance_deck w;
                  community_chest_deck := community_chest_deck w;
                  rng := g1 |}).
Qed.

Lemma take_turn_strategy (depth : nat) (w w' : World) (pos : Z) :
  take_turn depth w = Ok (pos, w') ->
  jail_strategy (self w') = jail_strategy (self w).
Proof.
  intros Hturn.
  pose proof (take_turn_relabel (jail_strategy (self w)) depth w eq_refl) as H.
  rewrite world_with_own_strategy, Hturn in H. cbn in H.
  injection H as H. rewrite H at 1. reflexivity.
Qed.

Lemma run_turns_relabel (depth : nat) (n : nat) (w : World)
    (counts : list Z) :
  String.eqb (jail_strategy (self w)) "B" = false ->
  run_turns depth n (world_with_strategy "A" w) counts =
    match run_turns depth n w counts with
    | Ok (w', c) => Ok (world_with_strategy "A" w', c)
    | Raise e => Raise e
    end.
Proof.
  revert w counts. induction n as [|n IH]; intros w counts Hs; [reflexivity|].
  cbn [run_turns].
  rewrite (take_turn_relabel "A" depth w) by (by rewrite Hs).
  destruct (take_turn depth w) as [[pos w1]|e] eqn:Hturn; [|reflexivity].
  cbn. destruct (np_increment counts pos) as [counts1|e]; [|reflexivity].
  cbn. apply IH.
  by rewrite (take_turn_strategy depth w w1 pos Hturn).
Qed.

Lemma run_iterations_relabel (depth : nat) (n : nat) (turns : Z)
    (strategy : string) (g : Random.State) (counts : list Z) :
  strategy <> "B"%string ->
  run_iterations depth n turns strategy g counts =
    run_iterations depth n turns "A" g counts.
Proof.
  intros Hs. apply String.eqb_neq in Hs.
  revert g counts. induction n as [|n IH]; intros g counts; [reflexivity|].
  cbn [run_iterations].
  destruct (create_decks g) as [[chance chest] g1].
  change {| self := Player.__init__ "A"; chance_deck := chance;
            community_chest_deck := chest; rng := g1 |}
    with (world_with_strategy "A"
            {| self := Player.__init__ strategy; chance_deck := chance;
               community_chest_deck := chest; rng := g1 |}).
  rewrite (run_turns_relabel depth (Z.to_nat turns)
             {| self := Player.__init__ strategy; chance_deck := chance;
                community_chest_deck := chest; rng := g1 |} counts Hs).
  destruct (run_turns depth (Z.to_nat turns) _ counts) as [[w1 counts1]|e];
    [|reflexivity].
  cbn. apply IH.
Qed.

(** C10.  A policy other than the exact string ["B"] is never told apart
    from ["A"]: the jail step, a whole turn and a whole run do under it
    exactly what they do under ["A"], the player's label aside.  Nothing
    rejects an unrecognised policy. *)
Theorem other_strategies_behave_as_A (strategy : string) :
  strategy <> "B"%string ->
  (forall p g,
      jail_strategy p = strategy ->
      handle_jail_turn (with_strategy "A" p) g =
        let '(m, p', g') := handle_jail_turn p g in
        (m, with_strategy "A" p', g')) /\
  (forall depth w,
      jail_strategy (self w) = strategy ->
      take_turn depth (world_with_strategy "A" w) =
        relabel_result "A" (take_turn depth w)) /\
  (forall depth sim g,
      run_simulation depth sim strategy g = run_simulation depth sim "A" g).
Proof.
  intros Hs. pose proof Hs as Hneq. apply String.eqb_neq in Hs.
  split; [|split].
  - intros p g Hp. apply handle_jail_turn_relabel. by rewrite Hp, Hs.
  - intros depth w Hw. apply take_turn_relabel. by rewrite Hw, Hs.
  - intros depth sim g. unfold run_simulation.
    by rewrite (run_iterations_relabel depth _ _ strategy g _ Hneq).
Qed.

Lemma other_strategies_behave_as_A_witness :
  "C"%string <> "B"%string /\
  run_simulation 3 (Simulation.__init__ 2 3) "C" example_generator =
    run_simulation 3 (Simulation.__init__ 2 3) "A" example_generator.
Proof.
  assert (H : "C"%string <> "B"%string) by discriminate.
  split; [exact H|].
  exact (proj2 (proj2 (other_strategies_behave_as_A "C" H))
           3%nat (Simulation.__init__ 2 3) example_generator).
Defined.

(** * Counters *)

Lemma wrap_int64_range (z : Z) : int64 (wrap_int64 z).
Proof.
  unfold int64, wrap_int64.
  pose proof (Z.mod_pos_bound (z + 2 ^ 63) (2 ^ 64)). lia.
Qed.

Lemma wrap_int64_small (z : Z) : int64 z -> wrap_int64 z = z.
Proof.
  unfold int64, wrap_int64. intros Hz.
  rewrite Z.mod_small by lia. lia.
Qed.

Lemma total_app (a b : list Z) :
  counts_total (a ++ b) = counts_total a + counts_total b.
Proof.
  unfold counts_total. induction a as [|x a IH]; cbn; [done | lia].
Qed.

Lemma total_insert (a : list Z) (k : nat) (c v : Z) :
  a !! k = Some c -> counts_total (<[k := v]> a) = counts_total a - c + v.
Proof.
  intros Hk.
  rewrite insert_take_drop by (by eapply lookup_lt_Some).
  rewrite <- (take_drop_middle a k c Hk) at 3.
  rewrite !total_app. cbn. unfold counts_total. cbn. lia.
Qed.

Lemma total_lookup_le (a : list Z) (k : nat) (c : Z) :
  Forall (Z.le 0) a -> a !! k = Some c -> 0 <= c <= counts_total a.
Proof.
  unfold counts_total.
  intros Hall. revert k. induction Hall as [|x a Hx Hall IH]; intros k Hk;
    [done|].
  assert (0 <= fold_right Z.add 0 a).
  { clear -Hall. induction Hall; cbn; lia. }
  destruct k as [|k]; cbn in *.
  - simplify_eq. lia.
  - specialize (IH k Hk). lia.
Qed.

Lemma total_zeros (n : nat) : counts_total (np_zeros n) = 0.
Proof. unfold counts_total, np_zeros. induction n; cbn; [done | lia]. Qed.

Lemma np_sum_total_from (a : list Z) (acc : Z) :
  Forall (Z.le 0) a -> 0 <= acc -> acc + counts_total a < 2 ^ 63 ->
  fold_left (fun acc c => wrap_int64 (acc + c)) a acc = acc + counts_total a.
Proof.
  unfold counts_total.
  intros Hall. revert acc. induction Hall as [|x a Hx Hall IH];
    intros acc Hacc Hlt; cbn in *; [lia|].
  assert (0 <= fold_right Z.add 0 a).
  { clear -Hall. induction Hall; cbn; lia. }
  rewrite wrap_int64_small by (unfold int64; lia).
  rewrite IH; lia.
Qed.

(** Below [2^63] the wrapping sum of non-negative counters is their
    exact sum. *)
Lemma np_sum_total (a : list Z) :
  Forall (Z.le 0) a -> counts_total a < 2 ^ 63 -> np_sum a = counts_total a.
Proof.
  intros Hall Hlt. unfold np_sum.
  rewrite np_sum_total_from; lia || done.
Qed.

Lemma np_sum_int64 (a : list Z) : int64 (np_sum a).
Proof.
  unfold np_sum.
  assert (H : forall acc, int64 acc ->
                int64 (fold_left (fun acc c => wrap_int64 (acc + c)) a acc)).
  { induction a as [|x a IH]; intros acc Hacc; cbn; [done|].
    apply IH, wrap_int64_range. }
  apply H. unfold int64. lia.
Qed.

Lemma np_zeros_elem_of (n : nat) (x : Z) : x ∈ np_zeros n -> x = 0.
Proof. intros Hx%list_elem_of_In. by apply repeat_spec in Hx. Qed.

Lemma counters_zeros : counters (np_zeros 40) 0.
Proof.
  split; [reflexivity|]. split.
  - apply Forall_forall. intros x ->%np_zeros_elem_of.
    unfold int64. lia.
  - intros _. split; [|apply total_zeros].
    apply Forall_forall. intros x ->%np_zeros_elem_of. lia.
Qed.

Lemma counters_increment (counts : list Z) (seen pos : Z) :
  0 <= seen ->
  counters counts seen ->
  on_board pos ->
  exists counts',
    np_increment counts pos = Ok counts' /\ counters counts' (seen + 1).
Proof.
  intros Hseen (Hlen & Hint & Hsum) Hpos.
  destruct (np_increment_on_board counts pos Hlen Hpos) as (c & Hc & ->).
  eexists. split; [reflexivity|].
  split; [by rewrite length_insert|]. split.
  - apply Forall_insert; [done | apply wrap_int64_range].
  - intros Hlt. destruct Hsum as [Hnn Htot]; [lia|].
    pose proof (total_lookup_le counts _ c Hnn Hc) as Hcle.
    rewrite wrap_int64_small by (unfold int64; lia).
    split.
    + apply Forall_insert; [done | lia].
    + rewrite (total_insert counts _ c _ Hc). lia.
Qed.

(** * The simulation loops *)

Lemma run_turns_counters (depth n : nat) (w : World) (counts : list Z)
    (seen : Z) :
  (3 <= depth)%nat ->
  world_ok w ->
  0 <= seen ->
  counters counts seen ->
  exists w' counts',
    run_turns depth n w counts = Ok (w', counts') /\
    world_ok w' /\
    counters counts' (seen + Z.of_nat n).
Proof.
  intros Hdepth. revert w counts seen.
  induction n as [|n IH]; intros w counts seen Hok Hseen Hcounts.
  - exists w, counts. cbn. rewrite Z.add_0_r. done.
  - cbn [run_turns].
    destruct (take_turn_spec depth w Hok) as [Hpost Htotal].
    destruct (Htotal Hdepth) as (pos & w1 & Hturn).
    destruct (Hpost pos w1 Hturn) as (Hpos & Hok1 & _).
    rewrite Hturn. cbn.
    destruct (counters_increment counts seen pos Hseen Hcounts)
      as (counts1 & Hinc & Hcounts1).
    { subst pos. apply Hok1. }
    rewrite Hinc. cbn.
    destruct (IH w1 counts1 (seen + 1) Hok1 ltac:(lia) Hcounts1)
      as (w' & counts' & Hrun & Hok' & Hcounts').
    exists w', counts'. split; [exact Hrun|]. split; [exact Hok'|].
    by replace (seen + Z.of_nat (S n)) with (seen + 1 + Z.of_nat n) by lia.
Qed.

Lemma fresh_world_ok (strategy : string) (g g1 : Random.State)
    (chance chest : Deck) :
  create_decks g = (chance, chest, g1) ->
  world_ok {| self := Player.__init__ strategy;
              chance_deck := chance;
              community_chest_deck := chest;
              rng := g1 |}.
Proof.
  unfold create_decks, ChanceDeck, CommunityChestDeck. intros Hdecks.
  pose proof (reachable_deck_over chance_cards _ ltac:(done)
                (reachable_new chance_cards g)) as H1.
  destruct (new_deck chance_cards g) as [c1 g2].
  pose proof (reachable_deck_over community_chest_cards _ ltac:(done)
                (reachable_new community_chest_cards g2)) as H2.
  destruct (new_deck community_chest_cards g2) as [c2 g3].
  cbn [fst] in H1, H2.
  injection Hdecks as -> -> ->.
  split; [split; [|by split]|].
  - unfold on_board. cbn. unfold GO_SPACE. lia.
  - cbn. repeat split; (lia || discriminate).
Qed.

Lemma run_iterations_counters (depth n : nat) (turns : Z) (strategy : string)
    (g : Random.State) (counts : list Z) (seen : Z) :
  (3 <= depth)%nat ->
  0 <= seen ->
  counters counts seen ->
  exists counts' g',
    run_iterations depth n turns strategy g counts = Ok (counts', g') /\
    counters counts' (seen + Z.of_nat n * Z.max 0 turns).
Proof.
  intros Hdepth. revert g counts seen.
  induction n as [|n IH]; intros g counts seen Hseen Hcounts.
  - exists counts, g. cbn. rewrite Z.add_0_r. done.
  - cbn [run_iterations].
    destruct (create_decks g) as [[chance chest] g1] eqn:Hdecks.
    pose proof (fresh_world_ok strategy g g1 chance chest Hdecks) as Hok.
    destruct (run_turns_counters depth (Z.to_nat turns) _ counts seen
                Hdepth Hok Hseen Hcounts)
      as (w1 & counts1 & Hrun & _ & Hcounts1).
    rewrite Hrun. cbn.
    destruct (IH (rng w1) counts1 (seen + Z.of_nat (Z.to_nat turns))
                ltac:(lia) Hcounts1)
      as (counts' & g' & Hiter & Hcounts').
    exists counts', g'. split; [exact Hiter|].
    by replace (seen + Z.of_nat (S n) * Z.max 0 turns)
      with (seen + Z.of_nat (Z.to_nat turns) + Z.of_nat n * Z.max 0 turns)
      by lia.
Qed.

(** * What can fail before the loops *)

Lemma printable_int64 (n : Z) : Z.abs n <= 2 ^ 63 -> printable n.
Proof.
  intros Hn. unfold printable.
  assert (H : 2 ^ 63 < 10 ^ max_str_digits) by (vm_compute; reflexivity).
  lia.
Qed.

Lemma str_printable (n : Z) :
  printable n -> str n = Ok (NilEmpty.string_of_int (Z.to_int n)).
Proof.
  unfold printable, str. intros Hn.
  by replace (Z.abs n <? 10 ^ max_str_digits) with true
    by (symmetry; by apply Z.ltb_lt).
Qed.

Lemma str_unprintable (n : Z) : ~ printable n -> str n = Raise ValueError.
Proof.
  unfold printable, str. intros Hn.
  by replace (Z.abs n <? 10 ^ max_str_digits) with false
    by (symmetry; apply Z.ltb_ge; lia).
Qed.

Lemma range_len_fits (n : Z) : n < 2 ^ 63 -> range_len n = Ok (Z.max 0 n).
Proof.
  unfold range_len. intros Hn.
  by replace (Z.max 0 n <? 2 ^ 63) with true
    by (symmetry; apply Z.ltb_lt; lia).
Qed.


(** When both counts can be printed and the progress bar can be sized, a
    run is its two loops. *)
Lemma run_simulation_loops (depth : nat) (sim : MonopolySimulation)
    (strategy : string) (g : Random.State) :
  printable (num_iterations sim) ->
  printable (turns_per_iteration sim) ->
  num_iterations sim < 2 ^ 63 ->
  run_simulation depth sim strategy g =
    ('(counts, g1) ← run_iterations depth (Z.to_nat (num_iterations sim))
                      (turns_per_iteration sim) strategy g (np_zeros 40);
     Ok (counts,
         {| num_iterations := num_iterations sim;
            turns_per_iteration := turns_per_iteration sim;
            landing_counts := Some counts |},
         g1)).
Proof.
  intros Hn Ht Hlen. unfold run_simulation.
  rewrite (str_printable _ Hn), (str_printable _ Ht), (range_len_fits _ Hlen).
  reflexivity.
Qed.


(** A run whose counts can be printed and whose iterations number fewer
    than [2^63] returns whenever three nested landing calls are allowed,
    and its counters account for every turn played. *)
Lemma run_simulation_counters (depth : nat) (sim : MonopolySimulation)
    (strategy : string) (g : Random.State) :
  (3 <= depth)%nat ->
  printable (num_iterations sim) ->
  printable (turns_per_iteration sim) ->
  num_iterations sim < 2 ^ 63 ->
  exists counts g',
    run_simulation depth sim strategy g =
      Ok (counts,
          {| num_iterations := num_iterations sim;
             turns_per_iteration := turns_per_iteration sim;
             landing_counts := Some counts |},
          g') /\
    counters counts
      (Z.max 0 (num_iterations sim) * Z.max 0 (turns_per_iteration sim)).
Proof.
  intros Hdepth Hn Ht Hlen.
  rewrite (run_simulation_loops depth sim strategy g Hn Ht Hlen).
  destruct (run_iterations_counters depth (Z.to_nat (num_iterations sim))
              (turns_per_iteration sim) strategy g (np_zeros 40) 0
              Hdepth ltac:(lia) counters_zeros)
    as (counts & g' & Hrun & Hcounts).
  rewrite Hrun. cbn. exists counts, g'. split; [reflexivity|].
  by replace (Z.max 0 (num_iterations sim))
    with (0 + Z.of_nat (Z.to_nat (num_iterations sim))) by lia.
Qed.

(** Counts below [2^63] in absolute value pass both checks. *)
Lemma run_simulation_counters_int64 (depth : nat) (sim : MonopolySimulation)
    (strategy : string) (g : Random.State) :
  (3 <= depth)%nat ->
  Z.abs (num_iterations sim) < 2 ^ 63 ->
  Z.abs (turns_per_iteration sim) < 2 ^ 63 ->
  exists counts g',
    run_simulation depth sim strategy g =
      Ok (counts,
          {| num_iterations := num_iterations sim;
             turns_per_iteration := turns_per_iteration sim;
             landing_counts := Some counts |},
          g') /\
    counters counts
      (Z.max 0 (num_iterations sim) * Z.max 0 (turns_per_iteration sim)).
Proof.
  intros Hdepth Hn Ht.
  apply run_simulation_counters; [done | | | lia];
    apply printable_int64; lia.
Qed.


(** * Configurations *)




(** * Rounding

    The error of one rounding to nearest is at most [unit_roundoff]
    relative to the value rounded; a quotient of two converted integers
    therefore carries three such errors. *)

Section Rounding.
Import Float64.
Local Open Scope Q_scope.

Lemma round_half_even_error (x : Q) :
  x - (1 # 2) <= inject_Z (round_half_even x) <= x + (1 # 2).
Proof.
  unfold round_half_even.
  pose proof (Qfloor_le x) as Hlo.
  pose proof (Qlt_floor x) as Hhi.
  rewrite inject_Z_plus in Hhi. change (inject_Z 1) with 1 in Hhi.
  destruct (Qcompare_spec (x - inject_Z (Qfloor x)) (1 # 2)) as [H | H | H].
  - destruct (Z.even (Qfloor x)); rewrite ?inject_Z_plus;
      change (inject_Z 1) with 1; lra.
  - lra.
  - rewrite inject_Z_plus. change (inject_Z 1) with 1. lra.
Qed.

Lemma pow2_pos (e : Z) : 0 < pow2 e.
Proof. apply Qpower_0_lt. reflexivity. Qed.

Lemma pow2_add (a b : Z) : pow2 (a + b) == pow2 a * pow2 b.
Proof. apply Qpower_plus. discriminate. Qed.

Lemma pow2_inject (n : Z) : (0 <= n)%Z -> pow2 n == inject_Z (2 ^ n).
Proof. intros Hn. unfold pow2. by rewrite Zpower_Qpower. Qed.

Lemma Qle_Qmake (x : Q) (n : Z) (d : positive) :
  x * inject_Z (Zpos d) <= inject_Z n -> x <= n # d.
Proof.
  destruct x as [a b]. unfold Qle. cbn. lia.
Qed.

Lemma ilog2_le (q : Q) : 0 < q -> pow2 (ilog2 q) <= q.
Proof.
  intros Hq. unfold ilog2.
  destruct (Qle_bool _ q) eqn:Hle; [by apply Qle_bool_iff|].
  destruct q as [n d]. cbn [Qnum Qden].
  assert (Hn : (0 < n)%Z) by (unfold Qlt in Hq; cbn in Hq; lia).
  apply Qle_Qmake.
  pose proof (Z.log2_spec n Hn) as [Hn1 _].
  pose proof (Z.log2_spec (Zpos d) eq_refl) as [_ Hd2].
  pose proof (Z.log2_nonneg n). pose proof (Z.log2_nonneg (Zpos d)).
  assert (E : pow2 (Z.log2 n - Z.log2 (Z.pos d) - 1) *
              inject_Z (2 ^ Z.succ (Z.log2 (Z.pos d))) ==
              inject_Z (2 ^ Z.log2 n)).
  { rewrite <- !pow2_inject by lia. rewrite <- pow2_add.
    replace (Z.log2 n - Z.log2 (Z.pos d) - 1 + Z.succ (Z.log2 (Z.pos d)))%Z
      with (Z.log2 n) by lia. reflexivity. }
  pose proof (pow2_pos (Z.log2 n - Z.log2 (Z.pos d) - 1)) as Hp.
  assert (inject_Z (Z.pos d) <= inject_Z (2 ^ Z.succ (Z.log2 (Z.pos d))))
    by (rewrite <- Zle_Qle; lia).
  assert (inject_Z (2 ^ Z.log2 n) <= inject_Z n)
    by (rewrite <- Zle_Qle; lia).
  nra.
Qed.

Lemma pow2_m52 : pow2 (-52) == 1 # (2 ^ 52).
Proof. reflexivity. Qed.

Lemma round_pos_error (q : Q) :
  0 < q ->
  q * (1 - unit_roundoff) <= round_pos q <= q * (1 + unit_roundoff).
Proof.
  intros Hq. unfold round_pos.
  pose proof (ilog2_le q Hq) as He.
  set (e := ilog2 q) in *.
  pose proof (pow2_pos (e - 52)) as Hulp.
  assert (Hulp_le : pow2 (e - 52) <= q * (1 # 2 ^ 52)).
  { replace (e - 52)%Z with (e + -52)%Z by lia.
    rewrite pow2_add, pow2_m52.
    assert (0 < 1 # 2 ^ 52) by reflexivity.
    set (k := 1 # 2 ^ 52) in *. nra. }
  set (ulp := pow2 (e - 52)) in *.
  pose proof (round_half_even_error (q / ulp)) as [Hlo Hhi].
  set (m := inject_Z (round_half_even (q / ulp))) in *.
  assert (Hq' : q / ulp * ulp == q) by (field; lra).
  unfold unit_roundoff.
  assert (Hu : (1 # 2 ^ 53) == (1 # 2) * (1 # 2 ^ 52)) by reflexivity.
  rewrite Hu.
  assert (0 < 1 # 2 ^ 52) by reflexivity.
  set (k := 1 # 2 ^ 52) in *. split; nra.
Qed.

Lemma round_error (q : Q) :
  0 <= q ->
  q * (1 - unit_roundoff) <= round q <= q * (1 + unit_roundoff).
Proof.
  intros Hq. unfold round.
  destruct q as [n d]. cbn [Qnum].
  destruct n as [|n|n].
  - unfold Qle, Qmult; cbn. lia.
  - apply round_pos_error. reflexivity.
  - exfalso. unfold Qle in Hq. cbn in Hq. lia.
Qed.

Lemma quotient_error (u c n x y t p : Q) :
  0 < u -> u <= 1 # 5 ->
  0 <= c -> 0 < n ->
  c * (1 - u) <= x <= c * (1 + u) ->
  n * (1 - u) <= y <= n * (1 + u) ->
  t * y == x ->
  t * (1 - u) <= p <= t * (1 + u) ->
  c * (1 - 4 * u) <= p * n <= c * (1 + 4 * u).
Proof.
  intros Hu0 Hu5 Hc Hn [Hx1 Hx2] [Hy1 Hy2] Ht [Hp1 Hp2].
  assert (Hy : 0 < y) by nra.
  assert (Ht0 : 0 <= t) by nra.
  split.
  - assert (H1 : c * (1 - u) <= t * n * (1 + u)) by nra.
    assert (H2 : t * n * (1 - u) <= p * n) by nra.
    assert (H3 : c * (1 - 4 * u) * (1 + u) <= c * (1 - u) * (1 - u)) by nra.
    nra.
  - assert (H1 : t * n * (1 - u) <= c * (1 + u)) by nra.
    assert (H2 : p * n <= t * n * (1 + u)) by nra.
    assert (H3 : c * (1 + u) * (1 + u) <= c * (1 + 4 * u) * (1 - u)) by nra.
    nra.
Qed.


Lemma true_divide_error (c n : Z) :
  (0 <= c)%Z -> (0 < n)%Z ->
  exists p,
    true_divide c n = Finite p /\
    inject_Z c * (1 - 4 * unit_roundoff) <= p * inject_Z n
      <= inject_Z c * (1 + 4 * unit_roundoff).
Proof.
  intros Hc Hn. unfold true_divide, of_int.
  assert (Hc' : 0 <= inject_Z c) by (by rewrite <- (Zle_Qle 0)).
  assert (Hn' : 0 < inject_Z n) by (by rewrite <- (Zlt_Qlt 0)).
  pose proof (round_error (inject_Z c) Hc') as Hx.
  pose proof (round_error (inject_Z n) (Qlt_le_weak _ _ Hn')) as Hy.
  set (x := round (inject_Z c)) in *.
  set (y := round (inject_Z n)) in *.
  assert (Hu : 0 < unit_roundoff) by reflexivity.
  assert (Hu5 : unit_roundoff <= 1 # 5) by (unfold Qle; cbn; lia).
  assert (Hy0 : 0 < y) by (set (u := unit_roundoff) in *; nra).
  destruct (Qeq_bool y 0) eqn:Hz.
  { apply Qeq_bool_iff in Hz. lra. }
  assert (Hx0 : 0 <= x) by (set (u := unit_roundoff) in *; nra).
  assert (Ht : 0 <= x / y).
  { apply Qle_shift_div_l; [done|]. lra. }
  exists (round (x / y)). split; [reflexivity|].
  apply (quotient_error unit_roundoff (inject_Z c) (inject_Z n) x y (x / y));
    try done.
  - field. lra.
  - by apply round_error.
Qed.

Lemma probabilities_error (counts : list Z) (n : Z) :
  Forall (Z.le 0) counts -> (0 < n)%Z ->
  exists ps,
    map (fun c => true_divide c n) counts = map Finite ps /\
    length ps = length counts /\
    inject_Z (counts_total counts) * (1 - 4 * unit_roundoff)
      <= Qtotal ps * inject_Z n
      <= inject_Z (counts_total counts) * (1 + 4 * unit_roundoff).
Proof.
  intros Hall Hn. induction Hall as [|c counts Hc Hall IH].
  - exists []. split; [done|]. split; [done|].
    unfold counts_total, Qtotal. cbn [fold_right].
    change (inject_Z 0) with 0. set (u := unit_roundoff). lra.
  - destruct IH as (ps & Hmap & Hlen & Hsum).
    destruct (true_divide_error c n Hc Hn) as (p & Hp & Hperr).
    exists (p :: ps). cbn [map]. rewrite Hp, Hmap.
    split; [done|]. split; [cbn; by rewrite Hlen|].
    unfold counts_total, Qtotal in *. cbn [fold_right].
    rewrite inject_Z_plus. set (u := unit_roundoff) in *. lra.
Qed.

(** The model agrees with the hardware on a few values: one third, one
    tenth, and the two ties above [2^53]. *)
Example round_examples :
  round (1 # 3) == 6004799503160661 # 2 ^ 54 /\
  round (1 # 10) == 3602879701896397 # 2 ^ 55 /\
  round (inject_Z (2 ^ 53 + 1)) == inject_Z (2 ^ 53) /\
  round (inject_Z (2 ^ 53 + 3)) == inject_Z (2 ^ 53 + 4).
Proof. repeat split; vm_compute; reflexivity. Qed.

End Rounding.

(** * The aggregation *)

Lemma total_int64_bound (a : list Z) :
  Forall int64 a -> counts_total a <= Z.of_nat (length a) * (2 ^ 63 - 1).
Proof.
  unfold counts_total, int64.
  induction 1 as [|x a Hx _ IH]; cbn [fold_right length]; lia.
Qed.

Lemma probabilities_sum (counts : list Z) :
  Forall (Z.le 0) counts ->
  0 < counts_total counts ->
  np_sum counts = counts_total counts ->
  exists ps,
    calculate_probabilities counts = map Float64.Finite ps /\
    length ps = length counts /\
    (1 - 4 * unit_roundoff <= Qtotal ps <= 1 + 4 * unit_roundoff)%Q.
Proof.
  intros Hall Hpos Hsum. unfold calculate_probabilities. rewrite Hsum.
  destruct (probabilities_error counts (counts_total counts) Hall Hpos)
    as (ps & Hmap & Hlen & Hlo & Hhi).
  exists ps. split; [exact Hmap|]. split; [exact Hlen|].
  assert (Hn : (0 < inject_Z (counts_total counts))%Q)
    by (by rewrite <- (Zlt_Qlt 0)).
  set (n := inject_Z (counts_total counts)) in *.
  set (u := unit_roundoff) in *.
  split; nra.
Qed.

(** C7, as amended.  A run with positive iteration and turn counts whose
    product is below [2^63] returns 40 counters that are non-negative and
    add up to the number of turns played, both exactly and as [np.sum]
    computes it; normalisation then yields 40 finite probabilities whose
    exact sum is within [1e-9] of 1. *)
Theorem counters_sum_to_turns (depth : nat) (sim : MonopolySimulation)
    (strategy : string) (g : Random.State) :
  (3 <= depth)%nat ->
  0 < num_iterations sim ->
  0 < turns_per_iteration sim ->
  num_iterations sim * turns_per_iteration sim < 2 ^ 63 ->
  exists counts g' ps,
    run_simulation depth sim strategy g =
      Ok (counts,
          {| num_iterations := num_iterations sim;
             turns_per_iteration := turns_per_iteration sim;
             landing_counts := Some counts |},
          g') /\
    length counts = 40%nat /\
    Forall (Z.le 0) counts /\
    counts_total counts = num_iterations sim * turns_per_iteration sim /\
    np_sum counts = num_iterations sim * turns_per_iteration sim /\
    calculate_probabilities counts = map Float64.Finite ps /\
    length ps = 40%nat /\
    (1 - (1 # 10 ^ 9) <= Qtotal ps <= 1 + (1 # 10 ^ 9))%Q.
Proof.
  intros Hdepth Hiter Hturns Hbound.
  destruct (run_simulation_counters_int64 depth sim strategy g Hdepth
              ltac:(nia) ltac:(nia))
    as (counts & g' & Hrun & Hlen & _ & Hsum).
  replace (Z.max 0 (num_iterations sim) * Z.max 0 (turns_per_iteration sim))
    with (num_iterations sim * turns_per_iteration sim) in Hsum by lia.
  destruct (Hsum Hbound) as [Hnn Htot].
  assert (Hnp : np_sum counts = counts_total counts)
    by (apply np_sum_total; [done | lia]).
  destruct (probabilities_sum counts Hnn ltac:(nia) Hnp)
    as (ps & Hprob & Hpslen & Hlo & Hhi).
  exists counts, g', ps.
  split; [exact Hrun|]. split; [exact Hlen|]. split; [exact Hnn|].
  split; [exact Htot|]. split; [congruence|]. split; [exact Hprob|].
  split; [congruence|].
  assert (Hu : (4 * unit_roundoff <= 1 # 10 ^ 9)%Q)
    by (unfold Qle; cbn; lia).
  set (u := unit_roundoff) in *. set (k := (1 # 10 ^ 9)%Q) in *.
  split; lra.
Qed.

Lemma counters_sum_to_turns_witness :
  let sim := Simulation.__init__ 3 4 in
  (3 <= 3)%nat /\
  0 < num_iterations sim /\
  0 < turns_per_iteration sim /\
  num_iterations sim * turns_per_iteration sim < 2 ^ 63 /\
  exists counts sim' g',
    run_simulation 3 sim "A" example_generator = Ok (counts, sim', g') /\
    counts_total counts = 12.
Proof.
  cbv zeta.
  assert (H1 : 0 < num_iterations (Simulation.__init__ 3 4)) by reflexivity.
  assert (H2 : 0 < turns_per_iteration (Simulation.__init__ 3 4)) by reflexivity.
  assert (H3 : num_iterations (Simulation.__init__ 3 4) *
               turns_per_iteration (Simulation.__init__ 3 4) < 2 ^ 63)
    by reflexivity.
  split; [exact (le_n 3)|]. split; [exact H1|]. split; [exact H2|].
  split; [exact H3|].
  destruct (counters_sum_to_turns 3 (Simulation.__init__ 3 4) "A"
              example_generator (le_n 3) H1 H2 H3)
    as (counts & g' & ps & Hrun & _ & _ & Htot & _).
  eexists counts, _, g'. split; [exact Hrun | exact Htot].
Defined.

(** C7, as stated: with [2^35] iterations of [2^34] turns the run returns
    40 [int64] counters, which cannot add up to the [2^69] turns played,
    and [np.sum] of them, an [int64] too, cannot either. *)
Lemma counters_wrap_beyond_int64 :
  let sim := Simulation.__init__ (2 ^ 35) (2 ^ 34) in
  0 < num_iterations sim /\
  0 < turns_per_iteration sim /\
  exists counts sim' g',
    run_simulation 3 sim "A" example_generator = Ok (counts, sim', g') /\
    counts_total counts <> num_iterations sim * turns_per_iteration sim /\
    np_sum counts <> num_iterations sim * turns_per_iteration sim.
Proof.
  cbv zeta. split; [reflexivity|]. split; [reflexivity|].
  destruct (run_simulation_counters_int64 3
              (Simulation.__init__ (2 ^ 35) (2 ^ 34)) "A"
              example_generator (le_n 3) eq_refl eq_refl)
    as (counts & g' & Hrun & Hlen & Hint & _).
  eexists counts, _, g'. split; [exact Hrun|].
  pose proof (total_int64_bound counts Hint) as Hle. rewrite Hlen in Hle.
  pose proof (np_sum_int64 counts) as Hnp. unfold int64 in Hnp.
  change (num_iterations (Simulation.__init__ (2 ^ 35) (2 ^ 34))) with (2 ^ 35).
  change (turns_per_iteration (Simulation.__init__ (2 ^ 35) (2 ^ 34)))
    with (2 ^ 34).
  split; lia.
Qed.

(** The bound of C7 is the first size at which the total goes wrong:
    [np.sum] is an [int64], so it cannot equal [2^63] recorded turns. *)
Example np_sum_wraps_at_2_63 :
  exists counts sim' g',
    run_simulation 3 (Simulation.__init__ (2 ^ 32) (2 ^ 31)) "A" example_generator
      = Ok (counts, sim', g') /\
    np_sum counts <> 2 ^ 32 * 2 ^ 31.
Proof.
  destruct (run_simulation_counters_int64 3
              (Simulation.__init__ (2 ^ 32) (2 ^ 31)) "A"
              example_generator (le_n 3) eq_refl eq_refl)
    as (counts & g' & Hrun & _).
  eexists counts, _, g'. split; [exact Hrun|].
  pose proof (np_sum_int64 counts) as Hnp. unfold int64 in Hnp. lia.
Qed.

(** * The board tables *)

(** A property checked on the 40 board indices holds on the board. *)
Lemma on_board_forallb (P : Z -> bool) :
  forallb P (range 40) = true -> forall n, on_board n -> P n = true.
Proof.
  intros H n Hn. rewrite forallb_forall in H. apply H.
  unfold range. apply in_map_iff. exists (Z.to_nat n).
  unfold on_board in Hn. split; [lia|]. apply in_seq. lia.
Qed.

Lemma on_board_dec (n : Z) :
  ((0 <=? n) && (n <=? 39) = true /\ on_board n) \/
  ((0 <=? n) && (n <=? 39) = false /\ ~ on_board n).
Proof.
  unfold on_board.
  destruct (Z.leb_spec 0 n), (Z.leb_spec n 39); cbn; [left | right..];
    split; (reflexivity || lia).
Qed.

Lemma dict_get_missing {V : Type} (d : list (Z * V)) (key : Z) (default : V) :
  ~ In key (map fst d) -> dict_get d key default = default.
Proof.
  intros Hkey. unfold dict_get.
  destruct (List.find _ d) as [item|] eqn:Hfind; [|reflexivity].
  apply find_some in Hfind as [Hin Heq]. apply Z.eqb_eq in Heq.
  exfalso. apply Hkey. rewrite <- Heq. by apply in_map.
Qed.

Lemma range_on_board (n : Z) : In n (range 40) -> on_board n.
Proof.
  unfold range. intros (k & <- & Hk%in_seq)%in_map_iff.
  unfold on_board. lia.
Qed.

Lemma get_space_name_unknown (n : Z) :
  ~ on_board n -> printable n ->
  get_space_name n =
    Ok ("Unknown Space " ++ NilEmpty.string_of_int (Z.to_int n))%string.
Proof.
  intros Hn Hp. unfold get_space_name. rewrite (str_printable n Hp).
  cbn [mbind result_bind]. f_equal. apply dict_get_missing.
  intros Hin. by apply Hn, range_on_board.
Qed.

Lemma get_space_name_unprintable (n : Z) :
  ~ printable n -> get_space_name n = Raise ValueError.
Proof.
  intros Hp. unfold get_space_name. by rewrite (str_unprintable n Hp).
Qed.

Lemma printable_dec (n : Z) :
  ((Z.abs n <? 10 ^ max_str_digits) = true /\ printable n) \/
  ((Z.abs n <? 10 ^ max_str_digits) = false /\ ~ printable n).
Proof.
  unfold printable.
  destruct (Z.ltb_spec (Z.abs n) (10 ^ max_str_digits)); [left | right];
    split; (reflexivity || lia).
Qed.


Lemma contains_iff (spaces : list Z) (p : Z) :
  contains spaces p = true <-> In p spaces.
Proof.
  unfold contains. rewrite existsb_exists. split.
  - intros (q & Hin & Heq). apply Z.eqb_eq in Heq. by subst.
  - intros Hin. exists p. split; [done | apply Z.eqb_refl].
Qed.

Lemma first_group_Some (groups : list (string * list Z)) (space : Z)
    (group_name : string) :
  first_group groups space = Some group_name ->
  exists spaces, In (group_name, spaces) groups /\ In space spaces.
Proof.
  induction groups as [|[g spaces] rest IH]; cbn; [done|].
  destruct (contains spaces space) eqn:Hc.
  - intros [= <-]. exists spaces. split; [by left | by apply contains_iff].
  - intros (spaces' & Hin & Hs)%IH. exists spaces'. split; [by right | done].
Qed.

Lemma first_group_None (groups : list (string * list Z)) (space : Z) :
  first_group groups space = None ->
  forall group_name spaces,
    In (group_name, spaces) groups -> ~ In space spaces.
Proof.
  induction groups as [|[g spaces] rest IH]; cbn; [done|].
  destruct (contains spaces space) eqn:Hc; [done|].
  intros Hnone g' spaces' [[= <- <-] | Hin].
  - intros Hs%contains_iff. congruence.
  - by apply (IH Hnone g').
Qed.

(** Every space of a colour group is on the board. *)
Lemma group_spaces_on_board (group_name : string) (spaces : list Z)
    (space : Z) :
  In (group_name, spaces) COLOR_GROUPS -> In space spaces -> on_board space.
Proof.
  intros Hg Hs.
  assert (H : forallb (fun item =>
                forallb (fun s => (0 <=? s) && (s <=? 39)) (snd item))
                COLOR_GROUPS = true) by reflexivity.
  rewrite forallb_forall in H. specialize (H _ Hg). cbn [snd] in H.
  rewrite forallb_forall in H. specialize (H _ Hs).
  unfold on_board. lia.
Qed.

Lemma get_color_group_off_board (space : Z) :
  ~ on_board space -> get_color_group space = None.
Proof.
  intros Hn. destruct (get_color_group space) as [g|] eqn:Hg; [|done].
  apply first_group_Some in Hg as (spaces & Hin & Hs).
  exfalso. by apply Hn, (group_spaces_on_board g spaces).
Qed.

Lemma contains_off_board (spaces : list Z) (n : Z) :
  forallb (fun s => (0 <=? s) && (s <=? 39)) spaces = true ->
  ~ on_board n -> contains spaces n = false.
Proof.
  intros H Hn. destruct (contains spaces n) eqn:Hc; [|done].
  apply contains_iff in Hc. rewrite forallb_forall in H.
  specialize (H n Hc). exfalso. apply Hn. unfold on_board. lia.
Qed.

(** X2.  The lists of special spaces agree with the table of names: a
    space is a Chance space exactly when [get_space_name] returns
    "Chance" for it, a Community Chest space exactly when it returns
    "Community Chest", and the Go To Jail, Jail and Go spaces are the
    ones for which it returns those names.  This holds for every integer,
    on the board or not. *)
Theorem special_spaces_match_names (n : Z) :
  is_chance n = is_named n "Chance" /\
  is_community_chest n = is_named n "Community Chest" /\
  (n =? GO_TO_JAIL_SPACE) = is_named n "Go to Jail" /\
  (n =? JAIL_SPACE) = is_named n "Jail (Just Visiting)" /\
  (n =? GO_SPACE) = is_named n "GO".
Proof.
  assert (H : names_match n = true).
  { destruct (on_board_dec n) as [[_ Hn] | [_ Hn]].
    - apply on_board_forallb; [vm_compute; reflexivity | exact Hn].
    - unfold names_match, is_named, is_chance, is_community_chest.
      rewrite !contains_off_board by done.
      unfold on_board, GO_TO_JAIL_SPACE, JAIL_SPACE, GO_SPACE in *.
      replace (n =? 30) with false by (symmetry; apply Z.eqb_neq; lia).
      replace (n =? 10) with false by (symmetry; apply Z.eqb_neq; lia).
      replace (n =? 0) with false by (symmetry; apply Z.eqb_neq; lia).
      destruct (printable_dec n) as [[_ Hp] | [_ Hp]].
      + rewrite (get_space_name_unknown n) by (unfold on_board; done).
        reflexivity.
      + rewrite (get_space_name_unprintable n Hp). reflexivity. }
  unfold names_match in H.
  repeat (apply andb_true_iff in H as [H ?]).
  repeat split; by apply eqb_prop.
Qed.

(** X3.  The colour groups are pairwise disjoint, so the group
    [get_color_group] finds first is the only one: it returns a group
    exactly when that group lists the space.  The railroads and the
    utilities of the card logic are the groups "Railroads" and
    "Utilities". *)
Theorem get_color_group_unique (space : Z) (group_name : string) :
  (get_color_group space = Some group_name <->
   exists spaces, In (group_name, spaces) COLOR_GROUPS /\ In space spaces) /\
  In ("Railroads"%string, RAILROAD_SPACES) COLOR_GROUPS /\
  In ("Utilities"%string, UTILITY_SPACES) COLOR_GROUPS.
Proof.
  split; [|split; [do 8 right; left; reflexivity | do 9 right; left; reflexivity]].
  split; [apply first_group_Some|].
  intros (spaces & Hg & Hs).
  pose proof (group_spaces_on_board _ _ _ Hg Hs) as Hb.
  assert (H : forallb (fun item =>
                implb (contains (snd item) space)
                  (match get_color_group space with
                   | Some g => String.eqb g (fst item)
                   | None => false
                   end)) COLOR_GROUPS = true).
  { apply (on_board_forallb (fun space =>
             forallb (fun item =>
                implb (contains (snd item) space)
                  (match get_color_group space with
                   | Some g => String.eqb g (fst item)
                   | None => false
                   end)) COLOR_GROUPS)); [reflexivity | exact Hb]. }
  rewrite forallb_forall in H. specialize (H _ Hg). cbn [fst snd] in H.
  apply contains_iff in Hs. rewrite Hs in H. cbn [implb] in H.
  destruct (get_color_group space) as [g|]; [|done].
  apply String.eqb_eq in H. by subst.
Qed.

(** X4.  [get_color_group] returns [None], and never raises, exactly on
    the integers off the board and on the twelve spaces that belong to no
    group: the six card spaces, Go, Income Tax, Jail, Free Parking, Go To
    Jail and Luxury Tax. *)
Theorem get_color_group_none (space : Z) :
  get_color_group space = None <->
  ~ on_board space \/ is_card_space space = true \/
  In space [GO_SPACE; 4; JAIL_SPACE; 20; GO_TO_JAIL_SPACE; 38].
Proof.
  destruct (on_board_dec space) as [[_ Hb] | [_ Hb]].
  - assert (H : Bool.eqb
                  (match get_color_group space with
                   | None => true | Some _ => false end)
                  (is_card_space space ||
                   contains [GO_SPACE; 4; JAIL_SPACE; 20; GO_TO_JAIL_SPACE; 38]
                     space) = true).
    { apply (on_board_forallb (fun space =>
               Bool.eqb
                  (match get_color_group space with
                   | None => true | Some _ => false end)
                  (is_card_space space ||
                   contains [GO_SPACE; 4; JAIL_SPACE; 20; GO_TO_JAIL_SPACE; 38]
                     space))); [reflexivity | exact Hb]. }
    apply eqb_prop in H. split.
    + intros Hnone. rewrite Hnone in H. symmetry in H.
      apply orb_true_iff in H as [H | H]; [by right; left|].
      right; right. by apply contains_iff.
    + intros [Hn | [Hc | Hin]]; [done| |].
      * rewrite Hc in H. by destruct (get_color_group space).
      * apply contains_iff in Hin. rewrite Hin, orb_true_r in H.
        by destruct (get_color_group space).
  - split; [by left|]. intros _. by apply get_color_group_off_board.
Qed.

(** X5.  From every board position the nearest-railroad card moves the
    player forward, by 1 to 10 spaces counted clockwise, onto a space of
    the group "Railroads"; the nearest-utility card moves it forward by 1
    to 24 spaces onto a space of the group "Utilities".  Neither leaves
    the player where it is. *)
Theorem nearest_cards_move_forward (p : Z) :
  on_board p ->
  let r := fst (apply NearestRailroadCard p) in
  let u := fst (apply NearestUtilityCard p) in
  get_color_group r = Some "Railroads"%string /\
  1 <= (r - p) mod 40 <= 10 /\
  get_color_group u = Some "Utilities"%string /\
  1 <= (u - p) mod 40 <= 24.
Proof.
  intros Hp. cbv zeta.
  assert (H : (let r := fst (apply NearestRailroadCard p) in
               let u := fst (apply NearestUtilityCard p) in
               match get_color_group r with
               | Some g => String.eqb g "Railroads" | None => false end &&
               (1 <=? (r - p) mod 40) && ((r - p) mod 40 <=? 10) &&
               match get_color_group u with
               | Some g => String.eqb g "Utilities" | None => false end &&
               (1 <=? (u - p) mod 40) && ((u - p) mod 40 <=? 24)) = true).
  { apply (on_board_forallb (fun p =>
       let r := fst (apply NearestRailroadCard p) in
       let u := fst (apply NearestUtilityCard p) in
       match get_color_group r with
       | Some g => String.eqb g "Railroads" | None => false end &&
       (1 <=? (r - p) mod 40) && ((r - p) mod 40 <=? 10) &&
       match get_color_group u with
       | Some g => String.eqb g "Utilities" | None => false end &&
       (1 <=? (u - p) mod 40) && ((u - p) mod 40 <=? 24)));
      [vm_compute; reflexivity | exact Hp]. }
  cbv zeta in H.
  repeat (apply andb_true_iff in H as [H ?]).
  destruct (get_color_group (fst (apply NearestRailroadCard p))) as [g1|];
    [|done].
  destruct (get_color_group (fst (apply NearestUtilityCard p))) as [g2|];
    [|done].
  repeat match goal with
         | H : String.eqb _ _ = true |- _ => apply String.eqb_eq in H; subst
         end.
  repeat split; lia.
Qed.

Lemma nearest_cards_move_forward_witness :
  on_board 35 /\
  get_color_group (fst (apply NearestRailroadCard 35)) = Some "Railroads"%string /\
  1 <= (fst (apply NearestRailroadCard 35) - 35) mod 40 <= 10.
Proof.
  assert (H : on_board 35) by (unfold on_board; lia).
  split; [exact H|].
  destruct (nearest_cards_move_forward 35 H) as (H1 & H2 & _).
  split; [exact H1 | exact H2].
Defined.

(** * A deck between two shuffles *)

Lemma draw_nonempty (d : Deck) (g : Random.State) (l : list Card) (c : Card) :
  cards d = l ++ [c] ->
  draw d g = Ok (c, {| all_cards := all_cards d; cards := l |}, g).
Proof.
  intros Hcards. unfold draw. rewrite Hcards.
  assert (Hpop : pop (l ++ [c]) = Ok (c, l)).
  { unfold pop. by rewrite last_snoc, removelast_last. }
  destruct l as [|a l]; cbn [app] in *; rewrite Hcards, Hpop; reflexivity.
Qed.

Lemma draw_many_cards (l : list Card) (d : Deck) (g : Random.State) :
  cards d = l ->
  draw_many (length l) d g =
    Ok (rev l, {| all_cards := all_cards d; cards := [] |}, g).
Proof.
  revert d. induction l as [|c l IH] using rev_ind; intros d Hcards.
  - cbn. destruct d as [a cs]. cbn in Hcards. by subst.
  - rewrite length_app, Nat.add_1_r, rev_unit. cbn [draw_many].
    rewrite (draw_nonempty d g l c Hcards). cbn.
    rewrite (IH {| all_cards := all_cards d; cards := l |} eq_refl).
    reflexivity.
Qed.

(** X6.  Between two shuffles a deck deals every card exactly once: as
    many draws as a freshly built deck has cards all succeed, return the
    shuffled cards from the last to the first, which is a rearrangement
    of the cards the deck was built from, leave the deck empty, and do
    not touch the random generator. *)
Theorem fresh_deck_deals_every_card_once (cs : list Card)
    (g0 g : Random.State) :
  draw_many (length cs) (fst (new_deck cs g0)) g =
    Ok (rev (cards (fst (new_deck cs g0))),
        {| all_cards := cs; cards := [] |}, g) /\
  rev (cards (fst (new_deck cs g0))) ≡ₚ cs.
Proof.
  pose proof (new_deck_cards cs g0) as Hperm.
  pose proof (new_deck_all_cards cs g0) as Hall.
  set (d := fst (new_deck cs g0)) in *.
  split.
  - rewrite <- (Permutation_length Hperm), <- Hall.
    by apply draw_many_cards.
  - by rewrite <- Permutation_rev.
Qed.

(** X7.  [draw] raises exactly when the deck is empty and was built from
    no card at all, and then it raises [IndexError]: the refill of an
    empty deck over an empty list leaves nothing to pop.  In every other
    state it returns a card. *)
Theorem draw_raises_iff_no_cards (d : Deck) (g : Random.State) :
  (draw d g = Raise IndexError <-> cards d = [] /\ all_cards d = []) /\
  (succeeds (draw d g) = false -> draw d g = Raise IndexError).
Proof.
  assert (Hcases : (cards d = [] /\ all_cards d = [] /\
                    draw d g = Raise IndexError) \/
                   ((cards d <> [] \/ all_cards d <> []) /\
                    exists r, draw d g = Ok r)).
  { destruct (cards d) as [|c0 l0] eqn:Hcards.
    - destruct (all_cards d) as [|a l] eqn:Hall.
      + left. split; [done|]. split; [done|].
        unfold draw, shuffle. rewrite Hcards, Hall. reflexivity.
      + right. split; [by right|].
        destruct (draw_spec d g) as (c & d' & g' & Hd & _);
          [by rewrite Hall|].
        by eexists.
    - right. split; [by left|].
      destruct (exists_last (l := c0 :: l0)) as (l & c & Hl); [done|].
      rewrite Hl in Hcards.
      rewrite (draw_nonempty d g l c Hcards). by eexists. }
  destruct Hcases as [(H1 & H2 & H3) | (Hne & r & Hr)].
  - split; [by split|done].
  - rewrite Hr. split; [|done]. split; [done|].
    intros [H1 H2]. by destruct Hne.
Qed.

(** * Movement *)

(** X8.  Moving forward composes additively and has period 40: two
    moves in a row are one move by the sum, and 40 more spaces change
    nothing.  Go Back 3 is the move by 3 spaces the other way round the
    board: it undoes a forward move of 3 and is undone by one, up to the
    reduction modulo 40 that both apply. *)
Theorem move_forward_composes (a b : Z) (p : Player) :
  move_forward a (move_forward b p) = move_forward (a + b) p /\
  move_forward (a + 40) p = move_forward a p /\
  fst (apply GoBackCard (position (move_forward 3 p))) = position p mod 40 /\
  position (move_forward 3
              (set_position (fst (apply GoBackCard (position p))) p))
    = position p mod 40.
Proof.
  unfold move_forward, set_position. cbn.
  repeat split.
  - f_equal. rewrite Zplus_mod_idemp_l. f_equal. lia.
  - f_equal. rewrite Z.add_assoc.
    rewrite <- (Z.mul_1_l 40) at 1. apply Z_mod_plus_full.
  - rewrite Zminus_mod_idemp_l. f_equal. lia.
  - rewrite Zplus_mod_idemp_l. f_equal. lia.
Qed.

(** * The jail step *)

(** X9.  [handle_jail_turn] rolls the dice exactly once.  It lets the
    player out exactly when the policy is ["B"], the dice show doubles,
    or this is the third turn served, and the amount to move is then the
    dice total; otherwise it counts one more turn served.  It never moves
    the player and never changes the run of doubles or the policy. *)
Theorem handle_jail_turn_frame (p : Player) (g : Random.State) :
  exists die1 die2 g',
    roll_dice g = (die1, die2, die1 + die2, die1 =? die2, g') /\
    1 <= die1 <= 6 /\ 1 <= die2 <= 6 /\
    exists p',
      handle_jail_turn p g =
        (if String.eqb (jail_strategy p) "B" || (die1 =? die2) ||
            (jail_turns p + 1 >=? 3)
         then Some (die1 + die2) else None, p', g') /\
      position p' = position p /\
      consecutive_doubles p' = consecutive_doubles p /\
      jail_strategy p' = jail_strategy p /\
      (if String.eqb (jail_strategy p) "B" || (die1 =? die2) ||
          (jail_turns p + 1 >=? 3)
       then in_jail p' = false /\ jail_turns p' = 0
       else in_jail p' = in_jail p /\ jail_turns p' = jail_turns p + 1).
Proof.
  destruct (roll_dice_spec g) as (die1 & die2 & g' & Hroll & Hd1 & Hd2).
  exists die1, die2, g'. split; [exact Hroll|]. split; [exact Hd1|].
  split; [exact Hd2|].
  unfold handle_jail_turn. rewrite Hroll.
  destruct (String.eqb (jail_strategy p) "B"); cbn [orb].
  - exists (leave_jail p). by repeat split.
  - destruct (die1 =? die2); cbn [orb].
    + exists (leave_jail p). by repeat split.
    + cbn [jail_turns set_jail_turns].
      destruct (jail_turns p + 1 >=? 3).
      * eexists. split; [reflexivity|]. by repeat split.
      * eexists. split; [reflexivity|]. by repeat split.
Qed.

(** * Jail bookkeeping along a trajectory *)

Lemma landed_jail_ok (p p' : Player) :
  landed p p' ->
  in_jail p = false -> jail_turns p = 0 -> 0 <= consecutive_doubles p <= 2 ->
  jail_ok p'.
Proof.
  intros Hl Hfree Hjt Hcd. unfold jail_ok.
  destruct p' as [pos' jail' jt' cd' s'].
  destruct Hl as [H | H]; unfold set_position, send_to_jail in H;
    cbn in H; simplify_eq; cbn; unfold JAIL_SPACE.
  - rewrite Hfree, Hjt. repeat split; (lia || done).
  - repeat split; (lia || done).
Qed.

Lemma take_turn_jail_ok (depth : nat) (w w' : World) (pos : Z) :
  world_ok w -> jail_ok (self w) ->
  take_turn depth w = Ok (pos, w') ->
  jail_ok (self w').
Proof.
  intros ((Hpos & Hch & Hcc) & _) (Hjt & Hcd & Hin & Hout).
  unfold take_turn.
  destruct (in_jail (self w)) eqn:Hjail.
  - destruct (Hin eq_refl) as [Hat Hcd0].
    destruct (handle_jail_turn_cases (self w) (rng w))
      as (total & g' & Ht & [H | (H & _ & Hlt)]); rewrite H.
    + intros Hrun.
      apply process_landing_post in Hrun as (_ & _ & Hl);
        [|split; [apply move_forward_on_board | by split]].
      apply (landed_jail_ok _ _ Hl); cbn; (done || lia).
    + intros [= <- <-]. cbn. unfold jail_ok. cbn.
      rewrite Hjail. repeat split; (lia || done).
  - specialize (Hout eq_refl).
    destruct (roll_dice_spec (rng w)) as (die1 & die2 & g' & Hroll & Hd1 & Hd2).
    rewrite Hroll.
    destruct (die1 =? die2) eqn:Hdbl;
      cbn [andb self consecutive_doubles set_consecutive_doubles].
    + rewrite Z.geb_leb.
      destruct (Z.leb_spec 3 (consecutive_doubles (self w) + 1)) as [Hthird | Hthird].
      * intros [= <- <-]. cbn. unfold jail_ok. cbn. unfold JAIL_SPACE.
        repeat split; (lia || done).
      * intros Hrun.
        apply process_landing_post in Hrun as (_ & _ & Hl);
          [|split; [apply move_forward_on_board | by split]].
        apply (landed_jail_ok _ _ Hl); cbn; (done || lia).
    + intros Hrun.
      apply process_landing_post in Hrun as (_ & _ & Hl);
        [|split; [apply move_forward_on_board | by split]].
      apply (landed_jail_ok _ _ Hl); cbn; (done || lia).
Qed.

(** X10.  Between any two turns of a trajectory the jail bookkeeping is
    consistent: the number of turns served is 0, 1 or 2 and the run of
    doubles is 0, 1 or 2; a jailed player stands on the Jail space and
    has no run of doubles; a free player has no turn served.  The policy
    the player was created with never changes. *)
Theorem jail_bookkeeping_consistent (depth : nat) (strategy : string)
    (w : World) :
  reachable_world depth strategy w ->
  jail_ok (self w) /\ jail_strategy (self w) = strategy.
Proof.
  induction 1 as [g | w w' pos Hreach [IHok IHs] Hturn].
  - rewrite start_world_self. split; [|reflexivity].
    unfold jail_ok. cbn. repeat split; (lia || done).
  - destruct (reachable_world_ok depth strategy w Hreach) as [Hok _].
    split; [by apply (take_turn_jail_ok depth w w' pos)|].
    destruct (take_turn_spec depth w Hok) as [Hpost _].
    destruct (Hpost pos w' Hturn) as (_ & _ & Hs). congruence.
Qed.

Lemma jail_bookkeeping_consistent_witness :
  reachable_world 3 "A" (world_after 3 "A" example_generator 4) /\
  jail_ok (self (world_after 3 "A" example_generator 4)).
Proof.
  assert (H : reachable_world 3 "A" (world_after 3 "A" example_generator 4))
    by apply world_after_reachable.
  split; [exact H|].
  exact (proj1 (jail_bookkeeping_consistent 3 "A" _ H)).
Defined.

(** * Where a turn can end *)

Lemma jail_card_target (c : Card) (p q : Z) :
  apply c p = (q, true) -> q = JAIL_SPACE.
Proof. destruct c; cbn; intros [= <-]; reflexivity. Qed.

Lemma resolve_card_rest (recur : World -> result (Z * World)) (c : Card)
    (w : World) (otherwise : result (Z * World)) (pos : Z) (w' : World) :
  (forall w1 w1' pos1, recur w1 = Ok (pos1, w1') ->
     pos1 = position (self w1') /\ pos1 <> GO_TO_JAIL_SPACE) ->
  (otherwise = Ok (pos, w') ->
     pos = position (self w') /\ pos <> GO_TO_JAIL_SPACE) ->
  resolve_card recur c w otherwise = Ok (pos, w') ->
  pos = position (self w') /\ pos <> GO_TO_JAIL_SPACE.
Proof.
  intros Hrec Hother. unfold resolve_card.
  destruct (affects_position c); [|exact Hother].
  destruct (apply c (position (self w))) as [q j] eqn:Happ.
  destruct j; [|apply Hrec].
  apply jail_card_target in Happ. subst q.
  intros [= <- <-]. by split.
Qed.

Lemma community_chest_branch_rest (recur : World -> result (Z * World))
    (w : World) (pos : Z) (w' : World) :
  (forall w1 w1' pos1, recur w1 = Ok (pos1, w1') ->
     pos1 = position (self w1') /\ pos1 <> GO_TO_JAIL_SPACE) ->
  position (self w) <> GO_TO_JAIL_SPACE ->
  community_chest_branch recur w = Ok (pos, w') ->
  pos = position (self w') /\ pos <> GO_TO_JAIL_SPACE.
Proof.
  intros Hrec Hne. unfold community_chest_branch.
  destruct (is_community_chest (position (self w))).
  - destruct (draw (community_chest_deck w) (rng w)) as [[[c dk] g]|e];
      cbn; [|done].
    apply resolve_card_rest; [exact Hrec|].
    intros [= <- <-]. by split.
  - intros [= <- <-]. by split.
Qed.

Lemma process_landing_rest (depth : nat) (w w' : World) (pos : Z) :
  _process_landing depth w = Ok (pos, w') ->
  pos = position (self w') /\ pos <> GO_TO_JAIL_SPACE.
Proof.
  revert w w' pos. induction depth as [|d IH]; intros w w' pos; [done|].
  cbn [_process_landing].
  destruct (position (self w) =? GO_TO_JAIL_SPACE) eqn:Hjail.
  { intros [= <- <-]. by split. }
  apply Z.eqb_neq in Hjail.
  destruct (is_chance (position (self w))).
  - destruct (draw (chance_deck w) (rng w)) as [[[c dk] g]|e]; cbn; [|done].
    apply resolve_card_rest; [exact IH|].
    by apply community_chest_branch_rest.
  - by apply community_chest_branch_rest.
Qed.

(** X11.  Whatever the world it starts from, landing resolution that
    returns yields the position the player then stands on, and this is
    never the Go To Jail space: a player that lands there, directly or by
    a card, is moved to Jail before the call returns. *)
Theorem landing_never_rests_on_go_to_jail (depth : nat) (w w' : World)
    (pos : Z) :
  _process_landing depth w = Ok (pos, w') ->
  pos = position (self w') /\ pos <> GO_TO_JAIL_SPACE.
Proof. apply process_landing_rest. Qed.

Lemma landing_never_rests_on_go_to_jail_witness :
  exists w', _process_landing 3 chain_world = Ok (0, w') /\
             0 = position (self w') /\ 0 <> GO_TO_JAIL_SPACE.
Proof.
  destruct deepest_chain as [_ [w' Hw']].
  exists w'. split; [exact Hw'|].
  exact (landing_never_rests_on_go_to_jail 3 chain_world w' 0 Hw').
Defined.

Lemma take_turn_rest (depth : nat) (w w' : World) (pos : Z) :
  world_ok w ->
  take_turn depth w = Ok (pos, w') ->
  on_board pos /\ pos <> GO_TO_JAIL_SPACE /\ world_ok w'.
Proof.
  intros Hok Hturn.
  destruct (take_turn_spec depth w Hok) as [Hpost _].
  destruct (Hpost pos w' Hturn) as (Hpos & Hok' & _).
  split; [subst pos; apply Hok'|]. split; [|exact Hok'].
  destruct Hok as (_ & _ & _ & Hat).
  revert Hturn. unfold take_turn.
  destruct (in_jail (self w)) eqn:Hjail.
  - specialize (Hat eq_refl).
    destruct (handle_jail_turn_cases (self w) (rng w))
      as (total & g' & Ht & [H | (H & _)]); rewrite H.
    + intros Hrun. by apply process_landing_rest in Hrun as [_ ?].
    + intros [= <- _]. cbn. by rewrite Hat.
  - destruct (roll_dice (rng w)) as [[[[d1 d2] t] dbl] g1].
    destruct (dbl && _).
    + intros [= <- _]. done.
    + intros Hrun. by apply process_landing_rest in Hrun as [_ ?].
Qed.

Lemma run_turns_rest (depth n : nat) (w w' : World) (counts counts' : list Z) :
  world_ok w -> length counts = 40%nat -> counts !! 30%nat = Some 0 ->
  run_turns depth n w counts = Ok (w', counts') ->
  world_ok w' /\ length counts' = 40%nat /\ counts' !! 30%nat = Some 0.
Proof.
  revert w counts. induction n as [|n IH]; intros w counts Hok Hlen H30.
  - intros [= <- <-]. done.
  - cbn [run_turns].
    destruct (take_turn depth w) as [[pos w1]|e] eqn:Hturn; [|done].
    destruct (take_turn_rest depth w w1 pos Hok Hturn) as (Hpos & Hne & Hok1).
    destruct (np_increment_on_board counts pos Hlen Hpos) as (c & _ & Hinc).
    cbn. rewrite Hinc. cbn.
    apply IH; [exact Hok1 | by rewrite length_insert |].
    rewrite list_lookup_insert_ne; [exact H30|].
    unfold on_board, GO_TO_JAIL_SPACE in *. lia.
Qed.

Lemma run_iterations_rest (depth n : nat) (turns : Z) (strategy : string)
    (g g' : Random.State) (counts counts' : list Z) :
  length counts = 40%nat -> counts !! 30%nat = Some 0 ->
  run_iterations depth n turns strategy g counts = Ok (counts', g') ->
  length counts' = 40%nat /\ counts' !! 30%nat = Some 0.
Proof.
  revert g counts. induction n as [|n IH]; intros g counts Hlen H30.
  - intros [= <- <-]. done.
  - cbn [run_iterations].
    destruct (create_decks g) as [[chance chest] g1] eqn:Hdecks.
    pose proof (fresh_world_ok strategy g g1 chance chest Hdecks) as Hok.
    destruct (run_turns depth (Z.to_nat turns) _ counts)
      as [[w1 counts1]|e] eqn:Hrun; [|done].
    destruct (run_turns_rest _ _ _ _ _ _ Hok Hlen H30 Hrun)
      as (_ & Hlen1 & H301).
    cbn. by apply IH.
Qed.

(** X12.  No turn ends on the Go To Jail space, so a run never counts a
    landing there: whatever the configuration, the policy, the generator
    and the recursion limit, the counter of space 30 is 0 in the 40
    counters a run returns. *)
Theorem go_to_jail_is_never_counted (depth : nat) (sim sim' : MonopolySimulation)
    (strategy : string) (g g' : Random.State) (counts : list Z) :
  run_simulation depth sim strategy g = Ok (counts, sim', g') ->
  length counts = 40%nat /\
  counts !! Z.to_nat GO_TO_JAIL_SPACE = Some 0.
Proof.
  unfold run_simulation.
  destruct (str (num_iterations sim)); [|done].
  destruct (str (turns_per_iteration sim)); [|done].
  destruct (range_len (num_iterations sim)); [|done].
  cbn [mbind result_bind].
  destruct (run_iterations depth _ _ strategy g (np_zeros 40))
    as [[counts1 g1]|e] eqn:Hrun; [|done].
  cbn. intros [= <- _ _].
  apply (run_iterations_rest depth (Z.to_nat (num_iterations sim))
           (turns_per_iteration sim) strategy g g1 (np_zeros 40) counts1);
    [reflexivity | reflexivity | exact Hrun].
Qed.

Lemma go_to_jail_is_never_counted_witness :
  exists counts sim' g',
    run_simulation 3 (Simulation.__init__ 3 4) "A" example_generator =
      Ok (counts, sim', g') /\
    counts !! Z.to_nat GO_TO_JAIL_SPACE = Some 0.
Proof.
  destruct (run_simulation_counters_int64 3 (Simulation.__init__ 3 4) "A"
              example_generator (le_n 3) eq_refl eq_refl)
    as (counts & g' & Hrun & _).
  eexists counts, _, g'. split; [exact Hrun|].
  exact (proj2 (go_to_jail_is_never_counted _ _ _ _ _ _ _ Hrun)).
Defined.

(** * Cards drawn by one landing *)

Lemma landing_plain (depth : nat) (w w' : World) (pos : Z) :
  is_card_space (position (self w)) = false ->
  _process_landing depth w = Ok (pos, w') ->
  chance_deck w' = chance_deck w /\
  community_chest_deck w' = community_chest_deck w /\
  rng w' = rng w.
Proof.
  intros Hplain. apply orb_false_iff in Hplain as [Hch Hcc].
  destruct depth as [|d]; [done|]. cbn [_process_landing].
  unfold community_chest_branch. rewrite Hch, Hcc.
  destruct (position (self w) =? GO_TO_JAIL_SPACE); by intros [= <- <-].
Qed.

Lemma community_chest_space (p : Z) :
  is_community_chest p = true ->
  is_chance p = false /\ (p =? GO_TO_JAIL_SPACE) = false.
Proof.
  intros Hp%contains_In. cbn in Hp.
  destruct Hp as [<- | [<- | [<- | []]]]; by split.
Qed.

Lemma landing_chest (depth : nat) (w w' : World) (pos : Z) :
  landing_ok w ->
  is_community_chest (position (self w)) = true ->
  _process_landing depth w = Ok (pos, w') ->
  chance_deck w' = chance_deck w /\
  exists c,
    draw (community_chest_deck w) (rng w) =
      Ok (c, community_chest_deck w', rng w').
Proof.
  intros (Hpos & Hchance & Hchest) Hcc.
  destruct (community_chest_space _ Hcc) as [Hch Hjail].
  destruct depth as [|d]; [done|]. cbn [_process_landing].
  unfold community_chest_branch. rewrite Hjail, Hch, Hcc.
  destruct (draw_over community_chest_cards (community_chest_deck w) (rng w))
    as (c & dk & g & Hdraw & Hc & _); [done|done|].
  rewrite Hdraw. cbn. unfold resolve_card.
  destruct (affects_position c) eqn:Ha.
  - cbn [self with_self].
    destruct (apply c (position (self w))) as [q j] eqn:Happ.
    destruct j.
    + intros [= <- <-]. split; [reflexivity|]. by exists c.
    + intros Hrun.
      destruct (chest_targets_plain c _ q false Hc Ha Happ) as [_ Hq].
      apply landing_plain in Hrun as (H1 & H2 & H3); [|exact Hq].
      cbn in H1, H2, H3. rewrite H1, H2, H3.
      split; [reflexivity|]. by exists c.
  - intros [= <- <-]. split; [reflexivity|]. by exists c.
Qed.

(** X13.  One landing draws at most one card from each deck.  The Chance
    deck gives exactly one card when the player lands on a Chance space
    and is untouched otherwise.  The Community Chest deck gives exactly
    one card when the player lands on a Community Chest space; otherwise
    it is untouched, unless the player landed on Chance at 36, where Go
    Back 3 leads to Community Chest at 33 and one card is drawn there.
    A landing on a space that is not a card space leaves the random
    generator alone. *)
Theorem landing_draws_at_most_once (depth : nat) (w w' : World) (pos : Z) :
  landing_ok w ->
  _process_landing depth w = Ok (pos, w') ->
  (if is_chance (position (self w))
   then exists c g1,
          draw (chance_deck w) (rng w) = Ok (c, chance_deck w', g1)
   else chance_deck w' = chance_deck w) /\
  (if is_community_chest (position (self w))
   then exists c,
          draw (community_chest_deck w) (rng w) =
            Ok (c, community_chest_deck w', rng w')
   else community_chest_deck w' = community_chest_deck w \/
        (position (self w) = 36 /\
         exists c g1,
           draw (community_chest_deck w) g1 =
             Ok (c, community_chest_deck w', rng w'))) /\
  (if is_card_space (position (self w)) then True else rng w' = rng w).
Proof.
  intros Hok Hrun.
  destruct (is_community_chest (position (self w))) eqn:Hcc.
  { destruct (community_chest_space _ Hcc) as [Hch _].
    destruct (landing_chest depth w w' pos Hok Hcc Hrun) as [H1 H2].
    unfold is_card_space. rewrite Hch, Hcc. done. }
  destruct (is_chance (position (self w))) eqn:Hch.
  2:{ destruct (landing_plain depth w w' pos) as (H1 & H2 & H3);
        [unfold is_card_space; by rewrite Hch, Hcc | exact Hrun |].
      unfold is_card_space. rewrite Hch, Hcc. cbn. split; [done|].
      split; [by left | done]. }
  unfold is_card_space. rewrite Hch, Hcc. cbn [orb].
  split; [|split; [|done]];
    destruct Hok as (Hpos & Hchance & Hchest);
    (destruct depth as [|d]; [done|]); cbn [_process_landing] in Hrun;
    (destruct (position (self w) =? GO_TO_JAIL_SPACE) eqn:Hjail;
     [apply Z.eqb_eq in Hjail; rewrite Hjail in Hch; discriminate|]);
    rewrite Hch in Hrun;
    destruct (draw_over chance_cards (chance_deck w) (rng w))
      as (c & dk & g1 & Hdraw & Hc & Hover); try done;
    rewrite Hdraw in Hrun; cbn in Hrun; unfold resolve_card in Hrun;
    (destruct (affects_position c) eqn:Ha;
     [cbn [self with_self] in Hrun;
      destruct (apply c (position (self w))) as [q j] eqn:Happ;
      destruct j;
      [injection Hrun as <- <- |
       destruct (is_card_space q) eqn:Hq;
       [destruct (chance_chain c _ q Hc Hch Ha Happ Hq) as (-> & Hp & ->);
        apply landing_chest in Hrun as [H1 [c' H2]];
          [|split; [cbn; unfold on_board; lia | by split] | reflexivity]
       |apply landing_plain in Hrun as (H1 & H2 & H3); [|exact Hq]]]
     |unfold community_chest_branch in Hrun; cbn [self] in Hrun;
      rewrite Hcc in Hrun; injection Hrun as <- <-]).
  - by exists c, g1.
  - cbn in H1. rewrite H1. by exists GoBackCard, g1.
  - cbn in H1. rewrite H1. by exists c, g1.
  - by exists c, g1.
  - by left.
  - right. split; [exact Hp|]. cbn in H2. by exists c', g1.
  - left. exact H2.
  - by left.
Qed.

Lemma chain_world_ok : landing_ok chain_world.
Proof.
  split; [cbn; unfold on_board; lia|].
  split; (split; [reflexivity|]); cbn [chance_deck community_chest_deck
    chain_world cards]; intros c ->%list_elem_of_singleton;
    apply list_elem_of_In.
  - do 6 right. left. reflexivity.
  - left. reflexivity.
Qed.

Lemma landing_draws_at_most_once_witness :
  landing_ok chain_world /\
  exists w',
    _process_landing 3 chain_world = Ok (0, w') /\
    (exists c g1,
        draw (chance_deck chain_world) (rng chain_world) =
          Ok (c, chance_deck w', g1)) /\
    (community_chest_deck w' = community_chest_deck chain_world \/
     (position (self chain_world) = 36 /\
      exists c g1,
        draw (community_chest_deck chain_world) g1 =
          Ok (c, community_chest_deck w', rng w'))).
Proof.
  split; [exact chain_world_ok|].
  destruct deepest_chain as [_ [w' Hw']].
  exists w'. split; [exact Hw'|].
  destruct (landing_draws_at_most_once 3 chain_world w' 0 chain_world_ok Hw')
    as (H1 & H2 & _).
  split; [exact H1 | exact H2].
Defined.

(** * A run without turns *)



(** * Ranking the spaces *)

Lemma np_getitem_nat {A : Type} (a : list A) (i : nat) :
  np_getitem a (Z.of_nat i) =
    match a !! i with
    | Some x => Ok x
    | None => Raise IndexError
    end.
Proof.
  unfold np_getitem, np_index.
  destruct (a !! i) as [x|] eqn:Hi.
  - pose proof (lookup_lt_Some _ _ _ Hi) as Hlt.
    replace ((0 <=? Z.of_nat i) && (Z.of_nat i <? Z.of_nat (length a)))
      with true
      by (symmetry; apply andb_true_iff; split;
          [apply Z.leb_le | apply Z.ltb_lt]; lia).
    cbn. by rewrite Nat2Z.id, Hi.
  - apply lookup_ge_None in Hi.
    replace (Z.of_nat i <? Z.of_nat (length a)) with false
      by (symmetry; apply Z.ltb_ge; lia).
    replace (Z.of_nat i <? 0) with false by (symmetry; apply Z.ltb_ge; lia).
    by rewrite !andb_false_r.
Qed.

(** The comprehension over [range], when every index is inside. *)
Lemma items_inside (probabilities : list Float64.float64) (a n : nat) :
  (a + n <= length probabilities)%nat ->
  mapM (fun i => p ← np_getitem probabilities i; Ok (i, p))
    (map Z.of_nat (seq a n)) =
  Ok (zip (map Z.of_nat (seq a n)) (take n (drop a probabilities))).
Proof.
  revert a. induction n as [|n IH]; intros a Hlen; [reflexivity|].
  cbn [seq map mapM]. rewrite np_getitem_nat.
  destruct (lookup_lt_is_Some_2 probabilities a) as [p Hp]; [lia|].
  rewrite Hp. cbn. rewrite IH by lia. cbn.
  rewrite (drop_S _ _ _ Hp). reflexivity.
Qed.

(** The comprehension over [range], when an index is outside. *)
Lemma items_outside (probabilities : list Float64.float64) (a n : nat) :
  (length probabilities < a + n)%nat -> (0 < n)%nat ->
  mapM (fun i => p ← np_getitem probabilities i; Ok (i, p))
    (map Z.of_nat (seq a n)) = Raise IndexError.
Proof.
  revert a. induction n as [|n IH]; intros a Hlen Hn; [lia|].
  cbn [seq map mapM]. rewrite np_getitem_nat.
  destruct (probabilities !! a) as [p|] eqn:Hp; [|reflexivity].
  apply lookup_lt_Some in Hp. cbn. rewrite IH by lia. reflexivity.
Qed.

Lemma get_ranked_spaces_inside (probabilities : list Float64.float64) :
  (40 <= length probabilities)%nat ->
  get_ranked_spaces probabilities =
    Ok (sort_reverse snd (zip (range 40) (take 40 probabilities))).
Proof.
  intros Hlen. unfold get_ranked_spaces, range.
  rewrite items_inside by lia. reflexivity.
Qed.

Lemma insert_reverse_Permutation {A : Type} (key : A -> Float64.float64)
    (x : A) (l : list A) :
  insert_reverse key x l ≡ₚ x :: l.
Proof.
  induction l as [|y l IH]; cbn; [done|].
  destruct (Float64.less (key x) (key y)); [|done].
  rewrite IH. apply Permutation_swap.
Qed.

Lemma sort_reverse_Permutation {A : Type} (key : A -> Float64.float64)
    (l : list A) :
  sort_reverse key l ≡ₚ l.
Proof.
  induction l as [|x l IH]; [done|].
  change (sort_reverse key (x :: l))
    with (insert_reverse key x (sort_reverse key l)).
  rewrite insert_reverse_Permutation. by rewrite IH.
Qed.

(** X15.  [get_ranked_spaces] reads the first 40 probabilities and
    nothing else.  Given fewer than 40 it raises [IndexError]; given at
    least 40 it returns a rearrangement of the 40 pairs of a space number
    from 0 to 39 and the probability at that index: every space occurs
    exactly once, with its own probability. *)
Theorem get_ranked_spaces_items (probabilities : list Float64.float64) :
  match get_ranked_spaces probabilities with
  | Ok ranked =>
      (40 <= length probabilities)%nat /\
      ranked ≡ₚ zip (range 40) (take 40 probabilities) /\
      map fst (zip (range 40) (take 40 probabilities)) = range 40
  | Raise e => e = IndexError /\ (length probabilities < 40)%nat
  end.
Proof.
  destruct (Nat.le_gt_cases 40 (length probabilities)) as [Hlen | Hlen].
  - rewrite get_ranked_spaces_inside by done.
    split; [done|]. split; [apply sort_reverse_Permutation|].
    apply fst_zip. rewrite length_take. unfold range.
    rewrite length_map, length_seq. lia.
  - unfold get_ranked_spaces, range.
    rewrite items_outside by lia. by split.
Qed.

(** * The order of the ranking *)

Lemma less_Finite (x y : Q) :
  Float64.less (Float64.Finite x) (Float64.Finite y) = true <-> (x < y)%Q.
Proof.
  cbn. rewrite negb_true_iff. split.
  - intros H. apply Qnot_le_lt. intros Hle.
    apply Qle_bool_iff in Hle. congruence.
  - intros H. destruct (Qle_bool y x) eqn:Hle; [|done].
    apply Qle_bool_iff in Hle. by apply Qlt_not_le in H.
Qed.

Lemma less_asymmetric (a b : Float64.float64) :
  Float64.less a b = true -> Float64.less b a = false.
Proof.
  destruct a as [x|[]|], b as [y|[]|]; try done.
  intros H%less_Finite.
  destruct (Float64.less (Float64.Finite y) (Float64.Finite x)) eqn:H';
    [|done].
  apply less_Finite in H'. exfalso. by apply (Qlt_irrefl x), (Qlt_trans _ y).
Qed.

(** Where [<] is a total order, "not less" is transitive. *)
Lemma not_less_transitive (a b c : Float64.float64) :
  is_nan b = false ->
  Float64.less a b = false -> Float64.less b c = false ->
  Float64.less a c = false.
Proof.
  destruct a as [x|[]|], b as [y|[]|], c as [z|[]|]; try done.
  intros _ Hab Hbc.
  destruct (Float64.less (Float64.Finite x) (Float64.Finite z)) eqn:Hac;
    [|done].
  apply less_Finite in Hac.
  destruct (Qlt_le_dec x y) as [Hxy | Hyx].
  - apply less_Finite in Hxy. congruence.
  - assert (Hyz : (y < z)%Q) by (by apply (Qle_lt_trans _ x)).
    apply less_Finite in Hyz. congruence.
Qed.

Lemma insert_reverse_sorted (x : Z * Float64.float64)
    (l : list (Z * Float64.float64)) :
  Forall (fun y => is_nan (snd y) = false) l ->
  Forall (fun y => fst x < fst y) l ->
  StronglySorted ranked_before l ->
  StronglySorted ranked_before (insert_reverse snd x l).
Proof.
  intros Hnan Hidx Hsorted.
  induction Hsorted as [|y l Hsorted IH Hy]; cbn.
  { constructor; constructor. }
  apply Forall_cons in Hnan as [Hy_nan Hnan].
  apply Forall_cons in Hidx as [Hxy Hidx].
  destruct (Float64.less (snd x) (snd y)) eqn:Hless.
  - constructor; [by apply IH|].
    rewrite insert_reverse_Permutation. constructor; [|exact Hy].
    split; [by apply less_asymmetric | congruence].
  - constructor; [by constructor|].
    constructor; [by split|].
    rewrite Forall_forall in Hy, Hidx. apply Forall_forall.
    intros z Hz. destruct (Hy z Hz) as [Hyz _]. split.
    + by apply (not_less_transitive _ (snd y)).
    + intros _. by apply Hidx.
Qed.

Lemma sort_reverse_sorted (l : list (Z * Float64.float64)) :
  Forall (fun y => is_nan (snd y) = false) l ->
  StronglySorted (fun x y => fst x < fst y) l ->
  StronglySorted ranked_before (sort_reverse snd l).
Proof.
  intros Hnan Hidx. induction Hidx as [|x l Hidx IH Hx].
  { constructor. }
  change (sort_reverse snd (x :: l))
    with (insert_reverse snd x (sort_reverse snd l)).
  apply Forall_cons in Hnan as [_ Hnan].
  apply insert_reverse_sorted.
  - by rewrite sort_reverse_Permutation.
  - by rewrite sort_reverse_Permutation.
  - by apply IH.
Qed.

Lemma items_ascending (l : list Float64.float64) (a n : nat) :
  StronglySorted (fun x y : Z * Float64.float64 => fst x < fst y)
    (zip (map Z.of_nat (seq a n)) l).
Proof.
  revert a l. induction n as [|n IH]; intros a l; cbn; [constructor|].
  destruct l as [|p l]; cbn; [constructor|].
  constructor; [apply IH|].
  apply Forall_forall. intros [i q] Hin.
  apply elem_of_zip_l in Hin. cbn.
  apply list_elem_of_In, in_map_iff in Hin as (k & <- & Hk%in_seq). lia.
Qed.

(** X16.  When none of the probabilities read is [nan],
    [get_ranked_spaces] returns the spaces from the most to the least
    visited: no item is followed, at any distance, by one with a greater
    probability, and items with equal probabilities come in ascending
    order of the space number, as a stable sort leaves them. *)
Theorem get_ranked_spaces_sorted (probabilities : list Float64.float64)
    (ranked : list (Z * Float64.float64)) :
  Forall (fun p => is_nan p = false) (take 40 probabilities) ->
  get_ranked_spaces probabilities = Ok ranked ->
  StronglySorted ranked_before ranked.
Proof.
  intros Hnan Hranked.
  destruct (Nat.le_gt_cases 40 (length probabilities)) as [Hlen | Hlen].
  - rewrite get_ranked_spaces_inside in Hranked by done.
    assert (ranked =
            sort_reverse snd (zip (range 40) (take 40 probabilities)))
      as -> by congruence.
    apply sort_reverse_sorted; [|apply items_ascending].
    apply Forall_forall. intros [i p] Hin. cbn.
    apply elem_of_zip_r in Hin.
    rewrite Forall_forall in Hnan. by apply Hnan.
  - unfold get_ranked_spaces, range in Hranked.
    rewrite items_outside in Hranked by lia. done.
Qed.

Lemma get_ranked_spaces_sorted_witness :
  Forall (fun p => is_nan p = false) (take 40 example_probabilities) /\
  exists ranked,
    get_ranked_spaces example_probabilities = Ok ranked /\
    StronglySorted ranked_before ranked.
Proof.
  assert (H : Forall (fun p => is_nan p = false)
                (take 40 example_probabilities)).
  { apply Forall_forall. intros p Hp%list_elem_of_In.
    assert (Hall : forallb (fun p => negb (is_nan p))
                     (take 40 example_probabilities) = true)
      by (vm_compute; reflexivity).
    rewrite forallb_forall in Hall. specialize (Hall p Hp).
    by apply negb_true_iff. }
  split; [exact H|].
  assert (Hlen : (40 <= length example_probabilities)%nat)
    by (vm_compute; lia).
  eexists. split; [by apply get_ranked_spaces_inside|].
  apply (get_ranked_spaces_sorted example_probabilities _ H).
  by apply get_ranked_spaces_inside.
Defined.

(** * Probabilities of the colour groups *)

Lemma np_getitem_inside {A : Type} (a : list A) (i : Z) (default : A) :
  0 <= i < Z.of_nat (length a) ->
  np_getitem a i = Ok (nth (Z.to_nat i) a default).
Proof.
  intros Hi. rewrite <- (Z2Nat.id i) at 1 by lia. rewrite np_getitem_nat.
  destruct (lookup_lt_is_Some_2 a (Z.to_nat i)) as [x Hx]; [lia|].
  rewrite Hx. f_equal. symmetry. by apply nth_lookup_Some.
Qed.

Lemma np_getitem_outside {A : Type} (a : list A) (i : Z) :
  Z.of_nat (length a) <= i -> np_getitem a i = Raise IndexError.
Proof.
  intros Hi. rewrite <- (Z2Nat.id i) by lia. rewrite np_getitem_nat.
  rewrite lookup_ge_None_2; [done | lia].
Qed.

(** A call that can only fail with [IndexError]. *)
Lemma mapM_IndexError {A B : Type} (f : A -> result B) (l : list A) (x : A) :
  (forall y e, f y = Raise e -> e = IndexError) ->
  In x l -> f x = Raise IndexError ->
  mapM f l = Raise IndexError.
Proof.
  intros Honly Hin Hx. induction l as [|y l IH]; [done|].
  cbn [mapM]. destruct (f y) as [b|e] eqn:Hy.
  - destruct Hin as [-> | Hin]; [congruence|].
    cbn. by rewrite IH.
  - cbn. f_equal. by apply (Honly y).
Qed.

Lemma np_getitem_only_IndexError {A : Type} (a : list A) (i : Z) (e : exn) :
  np_getitem a i = Raise e -> e = IndexError.
Proof.
  unfold np_getitem. destruct (np_index _ i) as [k|e'] eqn:Hk; cbn.
  - destruct (a !! k); [done | by intros [= <-]].
  - unfold np_index in Hk.
    repeat (destruct (_ && _) in Hk; [done|]).
    injection Hk as <-. by intros [= <-].
Qed.

Lemma getitems_inside {A : Type} (a : list A) (spaces : list Z) (default : A) :
  Forall (fun s => 0 <= s < Z.of_nat (length a)) spaces ->
  mapM (np_getitem a) spaces =
    Ok (map (fun s => nth (Z.to_nat s) a default) spaces).
Proof.
  induction 1 as [|s spaces Hs _ IH]; [reflexivity|].
  cbn [mapM map]. rewrite (np_getitem_inside a s default Hs). cbn.
  rewrite IH. reflexivity.
Qed.

(** The sum of one group, as [get_color_group_probabilities] computes it
    when every space of the group is inside the array. *)
Lemma group_inside (probabilities : list Float64.float64)
    (groups : list (string * list Z)) :
  Forall (fun item =>
            Forall (fun s => 0 <= s < Z.of_nat (length probabilities))
              (snd item)) groups ->
  mapM (fun '(group_name, spaces) =>
          items ← mapM (np_getitem probabilities) spaces;
          Ok (group_name, sum items)) groups =
  Ok (map (fun item =>
             (fst item,
              sum (map (fun s => nth (Z.to_nat s) probabilities Float64.NaN)
                     (snd item)))) groups).
Proof.
  induction 1 as [|[group_name spaces] groups Hs _ IH]; [reflexivity|].
  cbn [mapM map fst snd] in *.
  rewrite (getitems_inside probabilities spaces Float64.NaN Hs). cbn.
  rewrite IH. reflexivity.
Qed.

(** X17.  [get_color_group_probabilities] needs the 40 probabilities of
    the board: given fewer it raises [IndexError], since Boardwalk, space
    39, belongs to a group.  Given at least 40 it returns one entry for
    each of the ten colour groups, in the order of [COLOR_GROUPS] and
    under the same names, whose value is the sum, taken from left to
    right, of the probabilities at the spaces of the group. *)
Theorem get_color_group_probabilities_spec
    (probabilities : list Float64.float64) :
  match get_color_group_probabilities probabilities with
  | Ok groups =>
      (40 <= length probabilities)%nat /\
      map fst groups = map fst COLOR_GROUPS /\
      groups =
        map (fun item =>
               (fst item,
                sum (map (fun s => nth (Z.to_nat s) probabilities Float64.NaN)
                       (snd item)))) COLOR_GROUPS
  | Raise e => e = IndexError /\ (length probabilities < 40)%nat
  end.
Proof.
  unfold get_color_group_probabilities.
  destruct (Nat.le_gt_cases 40 (length probabilities)) as [Hlen | Hlen].
  - rewrite group_inside.
    + split; [done|]. split; [|done].
      rewrite map_map. cbn [fst]. reflexivity.
    + apply Forall_forall. intros [group_name spaces] Hg%list_elem_of_In.
      apply Forall_forall. intros s Hs%list_elem_of_In. cbn [snd] in Hs.
      pose proof (group_spaces_on_board _ _ _ Hg Hs) as Hb.
      unfold on_board in Hb. lia.
  - rewrite (mapM_IndexError _ _ ("Dark Blue"%string, [37; 39])).
    + by split.
    + intros [group_name spaces] e. cbn.
      destruct (mapM (np_getitem probabilities) spaces) as [items|e']
        eqn:Hitems; cbn; [done|].
      intros [= <-]. clear -Hitems.
      induction spaces as [|s spaces IH]; [done|].
      cbn [mapM] in Hitems.
      destruct (np_getitem probabilities s) as [p|e] eqn:Hs; cbn in Hitems.
      * destruct (mapM (np_getitem probabilities) spaces); [done|].
        cbn in Hitems. injection Hitems as <-. by apply IH.
      * injection Hitems as <-. by apply np_getitem_only_IndexError in Hs.
    + do 7 right. left. reflexivity.
    + rewrite (mapM_IndexError _ _ 39); try done.
      * intros y e. apply np_getitem_only_IndexError.
      * right. by left.
      * apply np_getitem_outside. lia.
Qed.

Section SumError.
Import Float64.
Local Open Scope Q_scope.






End SumError.




(** * Both policies *)




(** * The dice *)

(** X20.  [roll_dice] draws twice from the generator.  Each die shows 1
    to 6, the total is their sum and so lies between 2 and 12, and the
    doubles flag is set exactly when the two dice are equal.  Every one of
    the 36 outcomes is shown by some generator. *)
Theorem roll_dice_outcomes (g : Random.State) :
  (exists die1 die2 g',
      roll_dice g = (die1, die2, die1 + die2, die1 =? die2, g') /\
      1 <= die1 <= 6 /\ 1 <= die2 <= 6 /\ 2 <= die1 + die2 <= 12 /\
      Random.cursor g' = S (S (Random.cursor g)) /\
      Random.stream g' = Random.stream g) /\
  (forall a b, 1 <= a <= 6 -> 1 <= b <= 6 ->
     exists g0, next_roll g0 = (a, b, a + b, a =? b)).
Proof.
  split.
  - unfold roll_dice.
    pose proof (randint_range g) as H1.
    assert (Hc1 : Random.cursor (snd (Random.randint 1 6 g)) =
                  S (Random.cursor g)) by reflexivity.
    assert (Hs1 : Random.stream (snd (Random.randint 1 6 g)) =
                  Random.stream g) by reflexivity.
    destruct (Random.randint 1 6 g) as [die1 g1]. cbn [fst snd] in *.
    pose proof (randint_range g1) as H2.
    assert (Hc2 : Random.cursor (snd (Random.randint 1 6 g1)) =
                  S (Random.cursor g1)) by reflexivity.
    assert (Hs2 : Random.stream (snd (Random.randint 1 6 g1)) =
                  Random.stream g1) by reflexivity.
    destruct (Random.randint 1 6 g1) as [die2 g2]. cbn [fst snd] in *.
    exists die1, die2, g2. repeat split; (lia || congruence).
  - intros a b Ha Hb.
    exists (Random.mkState
              (fun k => match k with
                        | O => Z.to_nat (a - 1)
                        | S _ => Z.to_nat (b - 1)
                        end) 0).
    unfold next_roll, roll_dice, Random.randint, Random.randbelow.
    cbn [Random.stream Random.cursor].
    change (Z.to_nat (6 - 1 + 1)) with 6%nat.
    rewrite !Nat.mod_small by lia.
    repeat f_equal; lia.
Qed.

(** * Cards that do not move *)

Lemma chance_space_not_go_to_jail (p : Z) :
  is_chance p = true -> (p =? GO_TO_JAIL_SPACE) = false.
Proof.
  intros Hp%contains_In. cbn in Hp.
  by destruct Hp as [<- | [<- | [<- | []]]].
Qed.

(** X21.  Landing resolution relies on the cards: a card created with
    [affects_position=True] from the base class [Card] leaves the
    position where it is, so the landing is processed again.  With a
    Chance deck made only of such cards, a landing on a Chance space
    never resolves: whatever the recursion limit, [RecursionError] is
    raised. *)
Theorem landing_can_exhaust_recursion (depth : nat) (w : World)
    (cs : list Card) :
  cs <> [] ->
  Forall (fun c => stays_put c = true) cs ->
  deck_over cs (chance_deck w) ->
  is_chance (position (self w)) = true ->
  _process_landing depth w = Raise RecursionError.
Proof.
  intros Hcs Hall. revert w.
  induction depth as [|d IH]; intros w Hover Hch; [reflexivity|].
  cbn [_process_landing].
  rewrite (chance_space_not_go_to_jail _ Hch), Hch.
  destruct (draw_over cs (chance_deck w) (rng w) Hcs Hover)
    as (c & dk & g & Hdraw & Hc & Hover').
  rewrite Hdraw. cbn [mbind result_bind].
  rewrite Forall_forall in Hall. specialize (Hall c Hc).
  destruct c as [name [|] | | | | |]; try discriminate.
  unfold resolve_card. cbn [affects_position apply self with_self].
  apply IH; [exact Hover' | exact Hch].
Qed.

Lemma landing_can_exhaust_recursion_witness :
  [BaseCard "Stay" true] <> [] /\
  Forall (fun c => stays_put c = true) [BaseCard "Stay" true] /\
  deck_over [BaseCard "Stay" true] (chance_deck stuck_world) /\
  is_chance (position (self stuck_world)) = true /\
  _process_landing 1000 stuck_world = Raise RecursionError.
Proof.
  assert (H1 : [BaseCard "Stay" true] <> []) by discriminate.
  assert (H2 : Forall (fun c => stays_put c = true) [BaseCard "Stay" true])
    by (constructor; [reflexivity | constructor]).
  assert (H3 : deck_over [BaseCard "Stay" true] (chance_deck stuck_world)).
  { split; [reflexivity|]. cbn. by intros c ?%elem_of_nil. }
  assert (H4 : is_chance (position (self stuck_world)) = true)
    by reflexivity.
  split; [exact H1|]. split; [exact H2|]. split; [exact H3|].
  split; [exact H4|].
  exact (landing_can_exhaust_recursion 1000 stuck_world _ H1 H2 H3 H4).
Defined.
